(** * SolarPaneler: the geometry core of [app.js]

    A shallow embedding of the layout engine of the [SolarPanelMonitor]
    class (the later, complete variant of [app.js]): panel normalization
    ([loadPanelLayout]), default synthesis ([createDefaultPanels]), the
    collision test ([panelsOverlap]), the relaxation loop
    ([resolveOverlaps]), one drag step ([handleMouseMove]), the colour
    scale ([getColorForPower]) and the export ([exportPanelLayout]).

    Numbers.  A JavaScript number is modelled as an exact rational ([Q]):
    [+ - * /] are the field operations, [===] on numbers is [Qeq_bool],
    [<=] is [Qle_bool].  Rounding, [NaN] and the infinities of IEEE doubles
    are outside the model; the one place where the code produces an
    infinity ([Math.min] of no arguments) is modelled with [option].
    Two rationals are "the same number" when they are [==] ([Qeq]).
    Where the source computes a value with a rounding error (the floor
    of the green channel, the gap left by a push of the resolver, the sum
    of a raw y and the offset), the theorems bound the value or state its
    order, and do not give it exactly.

    Objects.  A raw layout record is a record of optional fields (an absent
    field reads [undefined], here [None]); the panel array is a [list]
    mutated by index, with stdpp's lookup and insert.  Methods of the
    class become functions from the state they read to the state they
    leave; what they do to the page (rendering, status text, cursor,
    console) is left out.  A listener runs to completion; the listeners
    that can run while an [async] method waits are events of the model
    (section [Session]). *)

From Stdlib Require Import QArith Qround Qabs Lqa ZArith Lia.
From stdpp Require Import base list strings pretty gmap.

Local Open Scope Q_scope.

(** ** JavaScript primitives used by the code *)

Definition number := Q.

(** [a < b] on numbers. *)
Definition Qlt_bool (a b : number) : bool := negb (Qle_bool b a).

Definition Math_max (a b : number) : number := if Qle_bool a b then b else a.
Definition Math_min (a b : number) : number := if Qle_bool a b then a else b.
Definition Math_abs (a : number) : number := Qabs a.
Definition Math_floor (a : number) : Z := Qfloor a.

(** [Math.min(...l)]: the least element, [Infinity] ([None]) for no
    arguments. *)
Definition Math_min_spread (l : list number) : option number :=
  match l with
  | [] => None
  | v :: l' => Some (foldl Math_min v l')
  end.

(** Truncation toward zero, and the remainder operator [a % b], whose
    result takes the sign of the dividend. *)
Definition trunc (a : number) : Z :=
  if Qle_bool 0 a then Qfloor a else Qceiling a.
Definition js_rem (a b : number) : number := a - b * inject_Z (trunc (a / b)).

(** Truthiness of a possibly absent number ([undefined] and [0] are falsy)
    and of a possibly absent string ([undefined] and the empty string). *)
Definition truthy_num (o : option number) : bool :=
  match o with
  | Some v => negb (Qeq_bool v 0)
  | None => false
  end.

Definition truthy_str (o : option string) : bool :=
  match o with
  | Some s => negb (String.eqb s "")
  | None => false
  end.

(** [a || b] where [b] may itself be absent, and [a || d] where [d] is a
    definite value. *)
Definition or_num (a b : option number) : option number :=
  if truthy_num a then a else b.
Definition or_num_default (a : option number) (d : number) : number :=
  match a with
  | Some v => if Qeq_bool v 0 then d else v
  | None => d
  end.

Definition or_str (a b : option string) : option string :=
  if truthy_str a then a else b.
Definition or_str_default (a : option string) (d : string) : string :=
  match a with
  | Some s => if String.eqb s "" then d else s
  | None => d
  end.

(** [Math.floor(index / 10)] and [index % 10] on an array index. *)
Definition of_index (i : nat) : number := inject_Z (Z.of_nat i).

(** ** Data model *)

(** A raw record, as received from the layout API or written in
    [CONFIG.localLayout].  Every field is optional. *)
Module Raw.
Record t := mk {
  xCoordinate : option number;
  yCoordinate : option number;
  x : option number;
  y : option number;
  planeRotation : option number;
  width : option number;
  height : option number;
  inverterSerialNumber : option string;
  id : option string;
  ID : option string;
  serialNumber : option string;
  SerialNumber : option string
}.

Definition empty : t :=
  mk None None None None None None None None None None None None.

(** The same record with one coordinate field removed. *)
Definition without_xCoordinate (r : t) : t :=
  mk None (yCoordinate r) (x r) (y r) (planeRotation r) (width r) (height r)
     (inverterSerialNumber r) (id r) (ID r) (serialNumber r) (SerialNumber r).
Definition without_x (r : t) : t :=
  mk (xCoordinate r) (yCoordinate r) None (y r) (planeRotation r) (width r)
     (height r) (inverterSerialNumber r) (id r) (ID r) (serialNumber r)
     (SerialNumber r).
Definition without_yCoordinate (r : t) : t :=
  mk (xCoordinate r) None (x r) (y r) (planeRotation r) (width r) (height r)
     (inverterSerialNumber r) (id r) (ID r) (serialNumber r) (SerialNumber r).
Definition without_y (r : t) : t :=
  mk (xCoordinate r) (yCoordinate r) (x r) None (planeRotation r) (width r)
     (height r) (inverterSerialNumber r) (id r) (ID r) (serialNumber r)
     (SerialNumber r).
End Raw.

(** A canonical panel.  [spread] holds the fields copied over by the
    object spread [...panel]; those whose names are canonical are shadowed
    by the canonical values that follow the spread in the literal. *)
Module Panel.
Record t := mk {
  id : string;
  serialNumber : option string;
  inverterSerialNumber : option string;
  x : number;
  y : number;
  width : number;
  height : number;
  planeRotation : number;
  spread : Raw.t
}.

Definition set_x (p : t) (v : number) : t :=
  mk (id p) (serialNumber p) (inverterSerialNumber p)
     v (y p) (width p) (height p) (planeRotation p) (spread p).
Definition set_y (p : t) (v : number) : t :=
  mk (id p) (serialNumber p) (inverterSerialNumber p)
     (x p) v (width p) (height p) (planeRotation p) (spread p).
End Panel.

(** What [panelsOverlap] reads of its arguments: the drag step passes an
    object literal with just these four fields. *)
Record Rect := mkRect { rx : number; ry : number; rw : number; rh : number }.

Definition rect_of (p : Panel.t) : Rect :=
  mkRect (Panel.x p) (Panel.y p) (Panel.width p) (Panel.height p).
Coercion rect_of : Panel.t >-> Rect.

(** The monitor's state, as far as the geometry core reads or writes it.
    [dragPanel] is a reference to an element of [panels], kept here as its
    index. *)
Record Monitor := mkMonitor {
  panels : list Panel.t;
  maxPower : number;
  isDragging : bool;
  dragPanel : option nat;
  dragOffset : number * number;
  editPlacementEnabled : bool
}.

Definition set_panels (m : Monitor) (ps : list Panel.t) : Monitor :=
  mkMonitor ps (maxPower m) (isDragging m) (dragPanel m) (dragOffset m)
            (editPlacementEnabled m).

(** ** [panelsOverlap] *)

Definition panelsOverlap (panel1 panel2 : Rect) : bool :=
  negb (Qle_bool (rx panel1 + rw panel1) (rx panel2)
        || Qle_bool (rx panel2 + rw panel2) (rx panel1)
        || Qle_bool (ry panel1 + rh panel1) (ry panel2)
        || Qle_bool (ry panel2 + rh panel2) (ry panel1)).

(** ** [resolveOverlaps] *)

Module Resolve.
Definition padding : number := 10.
Definition maxIterations : nat := 100.

(** The body of the [if (this.panelsOverlap(panel1, panel2))] branch:
    the two panels after they are pushed apart. *)
Definition separate (panel1 panel2 : Panel.t) : Panel.t * Panel.t :=
  let overlapX :=
    Math_min (Panel.x panel1 + Panel.width panel1 - Panel.x panel2)
             (Panel.x panel2 + Panel.width panel2 - Panel.x panel1) in
  let overlapY :=
    Math_min (Panel.y panel1 + Panel.height panel1 - Panel.y panel2)
             (Panel.y panel2 + Panel.height panel2 - Panel.y panel1) in
  if Qlt_bool overlapX overlapY then
    let moveAmount := (overlapX + padding) / 2 in
    if Qlt_bool (Panel.x panel1) (Panel.x panel2) then
      (Panel.set_x panel1 (Math_max 0 (Panel.x panel1 - moveAmount)),
       Panel.set_x panel2 (Panel.x panel2 + moveAmount))
    else
      (Panel.set_x panel1 (Panel.x panel1 + moveAmount),
       Panel.set_x panel2 (Math_max 0 (Panel.x panel2 - moveAmount)))
  else
    let moveAmount := (overlapY + padding) / 2 in
    if Qlt_bool (Panel.y panel1) (Panel.y panel2) then
      (Panel.set_y panel1 (Math_max 0 (Panel.y panel1 - moveAmount)),
       Panel.set_y panel2 (Panel.y panel2 + moveAmount))
    else
      (Panel.set_y panel1 (Panel.y panel1 + moveAmount),
       Panel.set_y panel2 (Math_max 0 (Panel.y panel2 - moveAmount))).

(** The loop state: the array and the flag [moved]. *)
Definition state : Type := list Panel.t * bool.

(** One execution of the inner loop body, for the pair [(i, j)].  Both
    indices are in range whenever the loops below call it. *)
Definition pairStep (i : nat) (st : state) (j : nat) : state :=
  match (fst st !! i : option Panel.t), (fst st !! j : option Panel.t) with
  | Some panel1, Some panel2 =>
      if panelsOverlap panel1 panel2 then
        let '(q1, q2) := separate panel1 panel2 in
        (<[j := q2]> (<[i := q1]> (fst st)), true)
      else st
  | _, _ => st
  end.

(** [for (let j = i + 1; j < this.panels.length; j++)].  The bound is the
    same at every test, since no step changes the length of the array. *)
Definition innerLoop (st : state) (i : nat) : state :=
  foldl (pairStep i) st (seq (S i) (length (fst st) - S i)).

(** One pass of the [while] body: [moved = false], then the two nested
    loops. *)
Definition pass (ps : list Panel.t) : state :=
  foldl innerLoop (ps, false) (seq 0 (length ps)).

(** [while (moved && iterations < maxIterations)].  The recursion is on
    the number of passes still allowed, which bounds the loop because
    [iterations] grows by one per pass. *)
Fixpoint while (remaining : nat) (ps : list Panel.t) (moved : bool)
    (iterations : nat) : list Panel.t * bool * nat :=
  match remaining with
  | O => (ps, moved, iterations)
  | S remaining' =>
      if moved && (iterations <? maxIterations)%nat then
        let '(ps', moved') := pass ps in
        while remaining' ps' moved' (S iterations)
      else (ps, moved, iterations)
  end.

(** The array after the call, with the final values of [moved] and
    [iterations] (which the code goes on to log). *)
Definition run (ps : list Panel.t) : list Panel.t * bool * nat :=
  while maxIterations ps true 0.
End Resolve.

Definition resolveOverlaps (ps : list Panel.t) : list Panel.t :=
  (Resolve.run ps).1.1.

(** ** [createDefaultPanels] *)

Module Default.
Definition baseWidth : number := 80.
Definition baseHeight : number := 120.
Definition spacingX : number := 20.
Definition spacingY : number := 20.
Definition cols : nat := 4.
Definition count : nat := 12.

(** The object pushed by iteration [i] of the [for] loop. *)
Definition panel (i : nat) : Panel.t :=
  let col := (i mod cols)%nat in
  let row := (i / cols)%nat in
  let rotation : number := if (i mod 2 =? 0)%nat then 0 else 90 in
  let '(width, height) :=
    if Qeq_bool rotation 0 || Qeq_bool rotation 180
    then (baseWidth, baseHeight)
    else (baseHeight, baseWidth) in
  Panel.mk ("panel-" +:+ pretty i) (Some ("SN-" +:+ pretty i)) None
           (50 + of_index col * (Math_max width baseHeight + spacingX))
           (50 + of_index row * (Math_max height baseHeight + spacingY))
           width height rotation Raw.empty.
End Default.

Definition createDefaultPanels : list Panel.t :=
  map Default.panel (seq 0 Default.count).

(** ** [loadPanelLayout] *)

(** The outcome of [fetch] and [response.json()]: the request fails, the
    status is not ok, or a payload arrives.  The first two throw and are
    handled by the [catch] block. *)
Inductive LayoutData :=
  | DataArray (l : list Raw.t)
  | DataObject (result_panels panels_field Panels_field : option (list Raw.t)).

Inductive Response :=
  | NetworkError
  | HttpError
  | Json (data : LayoutData).

Module Load.
(** [panelsArray], chosen among the recognized payload shapes. *)
Definition panelsArray (data : LayoutData) : list Raw.t :=
  match data with
  | DataObject (Some l) _ _ => l
  | DataArray l => l
  | DataObject None (Some l) _ => l
  | DataObject None None (Some l) => l
  | DataObject None None None => []
  end.

(** [p.yCoordinate || p.y || 0] *)
Definition yCoord (p : Raw.t) : number :=
  or_num_default (or_num (Raw.yCoordinate p) (Raw.y p)) 0.

(** [minY < 0 ? Math.abs(minY) + 50 : 50], where [minY] is [Infinity] for
    an empty array. *)
Definition yOffset (panelsArray : list Raw.t) : number :=
  match Math_min_spread (map yCoord panelsArray) with
  | Some minY => if Qlt_bool minY 0 then Math_abs minY + 50 else 50
  | None => 50
  end.

(** The callback of [panelsArray.map] on the API path. *)
Definition normalize (yOffset : number) (index : nat) (panel : Raw.t)
    : Panel.t :=
  let x := or_num_default (or_num (Raw.xCoordinate panel) (Raw.x panel))
             (of_index (index mod 10) * 120 + 50) in
  let y := or_num_default (or_num (Raw.yCoordinate panel) (Raw.y panel))
             (of_index (index / 10) * 120 + 50) + yOffset in
  let rotation := js_rem (or_num_default (Raw.planeRotation panel) 0) 360 in
  let baseWidth := or_num_default (Raw.width panel) 80 in
  let baseHeight := or_num_default (Raw.height panel) 120 in
  let '(width, height) :=
    if Qeq_bool rotation 0 || Qeq_bool rotation 180 then
      (baseWidth, baseHeight)
    else if Qeq_bool rotation 90 || Qeq_bool rotation 270 then
      (baseHeight, baseWidth)
    else
      let maxDim := Math_max baseWidth baseHeight in
      (maxDim, maxDim) in
  Panel.mk
    (or_str_default
       (or_str (or_str (Raw.inverterSerialNumber panel) (Raw.id panel))
               (Raw.ID panel))
       ("panel-" +:+ pretty index))
    (or_str (or_str (Raw.inverterSerialNumber panel) (Raw.serialNumber panel))
            (Raw.SerialNumber panel))
    (Raw.inverterSerialNumber panel)
    x y width height rotation panel.

Definition fromApi (panelsArray : list Raw.t) : list Panel.t :=
  imap (normalize (yOffset panelsArray)) panelsArray.

(** The callback of [CONFIG.localLayout.map] on the static path. *)
Definition localPanel (index : nat) (panel : Raw.t) : Panel.t :=
  Panel.mk
    (or_str_default (or_str (Raw.id panel) (Raw.inverterSerialNumber panel))
                    ("panel-" +:+ pretty index))
    (or_str (Raw.serialNumber panel) (Raw.inverterSerialNumber panel))
    (Raw.inverterSerialNumber panel)
    (or_num_default (Raw.x panel) 0)
    (or_num_default (Raw.y panel) 0)
    (or_num_default (Raw.width panel) 80)
    (or_num_default (Raw.height panel) 120)
    (or_num_default (Raw.planeRotation panel) 0)
    panel.

Definition fromLocal (localLayout : list Raw.t) : list Panel.t :=
  imap localPanel localLayout.

(** The [try] block up to the assignment of [this.panels]; [None] when an
    exception is thrown. *)
Definition tryBlock (localLayout : option (list Raw.t)) (resp : Response)
    : option (list Panel.t) :=
  match localLayout with
  | Some (r :: l) => Some (fromLocal (r :: l))
  | _ =>
      match resp with
      | Json data => Some (fromApi (panelsArray data))
      | NetworkError | HttpError => None
      end
  end.

(** [if (this.maxPower === 0) this.maxPower = 400] *)
Definition defaultMaxPower (mp : number) : number :=
  if Qeq_bool mp 0 then 400 else mp.
End Load.

Definition loadPanelLayout (localLayout : option (list Raw.t))
    (resp : Response) (m : Monitor) : Monitor :=
  let ps :=
    match Load.tryBlock localLayout resp with
    | Some ps => if (length ps =? 0)%nat then createDefaultPanels else ps
    | None => createDefaultPanels
    end in
  mkMonitor (resolveOverlaps ps) (Load.defaultMaxPower (maxPower m))
            (isDragging m) (dragPanel m) (dragOffset m)
            (editPlacementEnabled m).

(** ** [exportPanelLayout] *)

(** One exported object.  The text written by [JSON.stringify], pasted
    into [CONFIG.localLayout], reads back as this record: a field that is
    [undefined] is left out of the text and is absent again on reading. *)
Definition exportRecord (panel : Panel.t) : Raw.t :=
  Raw.mk None None
         (Some (Panel.x panel)) (Some (Panel.y panel))
         (Some (Panel.planeRotation panel))
         (Some (Panel.width panel)) (Some (Panel.height panel))
         (Panel.inverterSerialNumber panel)
         (Some (Panel.id panel)) None
         (Panel.serialNumber panel) None.

(** [None]: nothing is exported (the "No panels to export" alert). *)
Definition exportPanelLayout (m : Monitor) : option (list Raw.t) :=
  match panels m with
  | [] => None
  | ps => Some (map exportRecord ps)
  end.

(** ** Drag placement: [handleMouseUp], [handleMouseMove] *)

Record MouseEvent := mkMouseEvent { clientX : number; clientY : number }.

(** [canvas.getBoundingClientRect()], of which the handler reads [left]
    and [top]. *)
Record ClientRect := mkClientRect { left : number; top : number }.

Definition handleMouseUp (m : Monitor) : Monitor :=
  if isDragging m then
    mkMonitor (panels m) (maxPower m) false None (dragOffset m)
              (editPlacementEnabled m)
  else m.

Module Drag.
Definition padding : number := 5.

(** The body of [for (const panel of this.panels)]: the candidate
    position [(x, y)] after looking at the panel at index [k].  The test
    [panel !== this.dragPanel] compares references, here indices. *)
Definition adjust (dragPanel : Panel.t) (d : nat) (pos : number * number)
    (k : nat) (panel : Panel.t) : number * number :=
  let '(x, y) := pos in
  if negb (k =? d)%nat
     && panelsOverlap
          (mkRect x y (Panel.width dragPanel) (Panel.height dragPanel)) panel
  then
    let overlapX :=
      Math_min (x + Panel.width dragPanel - Panel.x panel)
               (Panel.x panel + Panel.width panel - x) in
    let overlapY :=
      Math_min (y + Panel.height dragPanel - Panel.y panel)
               (Panel.y panel + Panel.height panel - y) in
    if Qlt_bool overlapX overlapY then
      if Qlt_bool x (Panel.x panel) then
        (Panel.x panel - Panel.width dragPanel - padding, y)
      else
        (Panel.x panel + Panel.width panel + padding, y)
    else
      if Qlt_bool y (Panel.y panel) then
        (x, Panel.y panel - Panel.height dragPanel - padding)
      else
        (x, Panel.y panel + Panel.height panel + padding)
  else pos.

(** The whole [for ... of] loop over the array, from index [k0] on. *)
Fixpoint loop (dragPanel : Panel.t) (d : nat) (pos : number * number)
    (k0 : nat) (ps : list Panel.t) : number * number :=
  match ps with
  | [] => pos
  | panel :: ps' =>
      loop dragPanel d (adjust dragPanel d pos k0 panel) (S k0) ps'
  end.

(** The candidate position computed from the pointer, clamped. *)
Definition candidate (rect : ClientRect) (e : MouseEvent) (m : Monitor)
    : number * number :=
  let x := clientX e - left rect - (dragOffset m).1 in
  let y := clientY e - top rect - (dragOffset m).2 in
  (Math_max 0 x, Math_max 0 y).
End Drag.

Definition handleMouseMove (rect : ClientRect) (e : MouseEvent) (m : Monitor)
    : Monitor :=
  if isDragging m && negb (editPlacementEnabled m) then handleMouseUp m
  else if isDragging m then
    match dragPanel m with
    | Some d =>
        match (panels m !! d : option Panel.t) with
        | Some dp =>
            let '(x, y) :=
              Drag.loop dp d (Drag.candidate rect e m) 0 (panels m) in
            set_panels m
              (<[d := Panel.set_y (Panel.set_x dp (Math_max 0 x))
                                  (Math_max 0 y)]> (panels m))
        | None => m
        end
    | None => m
    end
  else m.

(** ** [getColorForPower] *)

(** The returned colour: the literal ['#000000'] or [rgb(r, g, b)]. *)
Inductive Color :=
  | Black
  | Rgb (r g b : Z).

Definition green (c : Color) : Z :=
  match c with
  | Black => 0
  | Rgb _ g _ => g
  end.

(** The string the code returns. *)
Definition css (c : Color) : string :=
  match c with
  | Black => "#000000"
  | Rgb r g b =>
      "rgb(" +:+ pretty r +:+ ", " +:+ pretty g +:+ ", " +:+ pretty b +:+ ")"
  end.

Definition getColorForPower (maxPower power : number) : Color :=
  if Qeq_bool maxPower 0 then Black
  else if Qeq_bool power 0 then Black
  else
    let ratio := Math_min (power / maxPower) 1 in
    let minGreen := 30 in
    let maxGreen := 255 in
    let greenRange := maxGreen - minGreen in
    let g := Math_floor (minGreen + greenRange * ratio) in
    let r := Math_floor 0 in
    let b := Math_floor 0 in
    Rgb r g b.

(** ** Power readings: [getPowerValue], [loadPowerData], the join *)

(** The value of a power field of a device record, as JSON gives it. *)
Inductive JsValue :=
  | JNull
  | JBool (b : bool)
  | JNum (v : number)
  | JStr (s : string).

(** A device record of the power payload.  The identity and type fields
    are strings when present; a power field holds any [JsValue]. *)
Module Device.
Record t := mk {
  SERIAL : option string;
  serialNumber : option string;
  SerialNumber : option string;
  inverterSerialNumber : option string;
  InverterSerialNumber : option string;
  id : option string;
  ID : option string;
  DEVICE_TYPE : option string;
  TYPE : option string;
  DESCR : option string;
  p_3phsum_kw : option JsValue;
  p_3phsum_kW : option JsValue;
  power : option JsValue;
  Power : option JsValue;
  powerWatts : option JsValue;
  PowerWatts : option JsValue;
  currentPower : option JsValue;
  CurrentPower : option JsValue;
  instantPower : option JsValue;
  InstantPower : option JsValue
}.

(** The object literal [{}]. *)
Definition empty : t :=
  mk None None None None None None None None None None
     None None None None None None None None None None.
End Device.

(** The monitor together with [this.powerData], an object used as a map
    from serial to device record.  Only its own properties are modelled:
    the names inherited from [Object.prototype] read as absent. *)
Record PowerMonitor := mkPowerMonitor {
  monitor : Monitor;
  powerData : gmap string Device.t
}.

(** The state the constructor leaves. *)
Definition constructed : PowerMonitor :=
  mkPowerMonitor (mkMonitor [] 0 false None (0, 0) false) ∅.

Inductive PowerPayload :=
  | PowerArray (l : list Device.t)
  | PowerObject (devices DeviceList Devices : option (list Device.t)).

Inductive PowerResponse :=
  | PowerNetworkError
  | PowerHttpError
  | PowerJson (data : PowerPayload).

(** Truthiness of a power field, and [a || b] on such fields. *)
Definition truthy_val (o : option JsValue) : bool :=
  match o with
  | Some (JNum v) => negb (Qeq_bool v 0)
  | Some (JStr s) => negb (String.eqb s "")
  | Some (JBool b) => b
  | Some JNull | None => false
  end.

Definition or_val (a b : option JsValue) : option JsValue :=
  if truthy_val a then a else b.

(** [v !== undefined && v !== null && v !== ''] *)
Definition present (o : option JsValue) : bool :=
  match o with
  | None | Some JNull => false
  | Some (JStr s) => negb (String.eqb s "")
  | Some _ => true
  end.

(** [s.includes(needle)] *)
Definition includes (needle s : string) : bool :=
  match String.index 0 needle s with
  | Some _ => true
  | None => false
  end.

(** The key under which [obj[k]] looks when [k] may be [undefined]. *)
Definition property_key (k : option string) : string :=
  match k with
  | Some s => s
  | None => "undefined"
  end.

Module PowerLoad.
(** [Array.isArray(data) ? data
      : (data.devices || data.DeviceList || data.Devices || [])] *)
Definition devices (data : PowerPayload) : list Device.t :=
  match data with
  | PowerArray l => l
  | PowerObject (Some l) _ _ => l
  | PowerObject None (Some l) _ => l
  | PowerObject None None (Some l) => l
  | PowerObject None None None => []
  end.

(** The predicate of [devices.filter]. *)
Definition isInverter (device : Device.t) : bool :=
  match Device.DEVICE_TYPE device with
  | Some s => String.eqb s "Inverter"
  | None => false
  end
  || match Device.TYPE device with
     | Some s => String.eqb s "SOLARBRIDGE"
     | None => false
     end
  || (truthy_str (Device.DESCR device)
      && match Device.DESCR device with
         | Some s => includes "Inverter" s
         | None => false
         end).

(** [device.SERIAL || device.serialNumber || ... || device.ID] *)
Definition serial (device : Device.t) : option string :=
  or_str (or_str (or_str (or_str (or_str (or_str
    (Device.SERIAL device) (Device.serialNumber device))
    (Device.SerialNumber device)) (Device.inverterSerialNumber device))
    (Device.InverterSerialNumber device)) (Device.id device))
    (Device.ID device).

(** The state of the [forEach] loop: [this.powerData], [this.maxPower]. *)
Definition state : Type := gmap string Device.t * number.
End PowerLoad.

Section Builtins.
(** Two built-ins on strings are parameters of the model: [parseFloat] of
    a string ([None] stands for [NaN]) and [String.prototype.toLowerCase]. *)
Variable parseFloat_str : string -> option number.
Variable toLowerCase : string -> string.

(** [parseFloat(v)]: a number reads back as itself through its string
    form; [null] and the booleans give [NaN]. *)
Definition parseFloat (v : JsValue) : option number :=
  match v with
  | JNum q => Some q
  | JStr s => parseFloat_str s
  | JNull | JBool _ => None
  end.

(** One of the two kilowatt fields: the value in watts when the field is
    neither [undefined], [null] nor [''] and parses to a number. *)
Definition kilowatt_field (o : option JsValue) : option number :=
  if present o then
    match o with
    | Some v => option_map (fun value => value * 1000) (parseFloat v)
    | None => None
    end
  else None.

Definition getPowerValue (device : Device.t) : number :=
  match kilowatt_field (Device.p_3phsum_kw device) with
  | Some result => result
  | None =>
      match kilowatt_field (Device.p_3phsum_kW device) with
      | Some result => result
      | None =>
          let fallbackValue :=
            match
              or_val (or_val (or_val (or_val (or_val (or_val (or_val
                (Device.power device) (Device.Power device))
                (Device.powerWatts device)) (Device.PowerWatts device))
                (Device.currentPower device)) (Device.CurrentPower device))
                (Device.instantPower device)) (Device.InstantPower device)
            with
            | Some v => if truthy_val (Some v) then v else JNum 0
            | None => JNum 0
            end in
          match parseFloat fallbackValue with
          | Some fallback => fallback
          | None => 0
          end
      end
  end.

(** [this.powerData[panel.id] || this.powerData[panel.serialNumber] ||
     this.powerData[panel.inverterSerialNumber] || {}], as it stands in
    [updateSummary], [updateTooltip] and [render]. *)
Definition powerInfo (pd : gmap string Device.t) (panel : Panel.t)
    : Device.t :=
  match pd !! Panel.id panel with
  | Some d => d
  | None =>
      match pd !! property_key (Panel.serialNumber panel) with
      | Some d => d
      | None =>
          match pd !! property_key (Panel.inverterSerialNumber panel) with
          | Some d => d
          | None => Device.empty
          end
      end
  end.


(** The callback of [inverters.forEach]. *)
Definition storeReading (st : PowerLoad.state) (device : Device.t)
    : PowerLoad.state :=
  match PowerLoad.serial device with
  | Some s =>
      if String.eqb s "" then st
      else
        let pd := <[s := device]> st.1 in
        let pd :=
          if negb (String.eqb s (toLowerCase s))
          then <[toLowerCase s := device]> pd
          else pd in
        let power := getPowerValue device in
        (pd, if Qlt_bool st.2 power then power else st.2)
  | None => st
  end.

(** The [try] block from the two resets to the end of the loop. *)
Definition processReadings (data : PowerPayload) : PowerLoad.state :=
  foldl storeReading (∅, 0)
        (filter (fun d => PowerLoad.isInverter d = true)
                (PowerLoad.devices data)).

Definition loadPowerData (resp : PowerResponse) (pm : PowerMonitor)
    : PowerMonitor :=
  let m := monitor pm in
  match resp with
  | PowerJson data =>
      let '(pd, mp) := processReadings data in
      mkPowerMonitor
        (mkMonitor (panels m) (Load.defaultMaxPower mp) (isDragging m)
                   (dragPanel m) (dragOffset m) (editPlacementEnabled m))
        pd
  | PowerNetworkError | PowerHttpError =>
      mkPowerMonitor
        (mkMonitor (panels m) (Load.defaultMaxPower (maxPower m))
                   (isDragging m) (dragPanel m) (dragOffset m)
                   (editPlacementEnabled m))
        (powerData pm)
  end.

(** The power shown for a panel, and the fill colour [render] gives it. *)
Definition panelPower (pm : PowerMonitor) (panel : Panel.t) : number :=
  getPowerValue (powerInfo (powerData pm) panel).

Definition panelColor (pm : PowerMonitor) (panel : Panel.t) : Color :=
  getColorForPower (maxPower (monitor pm)) (panelPower pm panel).

(** [updateSummary]: the values of [totalPower] and [activePanels] when
    the [forEach] loop ends. *)
Definition summaryStep (pm : PowerMonitor) (acc : number * nat)
    (panel : Panel.t) : number * nat :=
  let power := panelPower pm panel in
  if Qlt_bool 0 power then (acc.1 + power, S acc.2) else acc.


End Builtins.

(** ** Tooltip placement: [showTooltip] *)

Module Tooltip.
Definition offset : number := 10.

(** What the code reads of [tooltip.getBoundingClientRect()] the second
    time, after the first position has been applied. *)
Record Box := mkBox {
  left : number;
  right : number;
  top : number;
  bottom : number
}.

(** [tooltipX] when the first round of adjustments ends, from the cursor
    coordinate, the measured width and the viewport width.  The source
    repeats the same statements for [tooltipY] with the height. *)
Definition initial (cursor size viewport : number) : number :=
  let pos := cursor + offset in
  let pos :=
    if Qlt_bool viewport (pos + size) then
      let pos := cursor - size - offset in
      if Qlt_bool pos 0 then offset else pos
    else pos in
  if Qlt_bool pos 0 then offset else pos.

(** [adjustedX] at the end of the final check, from [tooltipX], the
    measured width, the viewport width and the edges [finalRect.left],
    [finalRect.right]; likewise [adjustedY]. *)
Definition adjusted (pos size viewport low high : number) : number :=
  let adj := pos in
  let adj := if Qlt_bool viewport high then viewport - size - offset else adj in
  let adj := if Qlt_bool low 0 then offset else adj in
  if Qlt_bool (viewport - 2 * offset) size
  then Math_max offset ((viewport - size) / 2)
  else adj.

(** The values of [style.left] and [style.top] when [showTooltip]
    returns. *)
Definition showTooltip (x y tooltipWidth tooltipHeight viewportWidth
    viewportHeight : number) (finalRect : Box) : number * number :=
  let tooltipX := initial x tooltipWidth viewportWidth in
  let tooltipY := initial y tooltipHeight viewportHeight in
  let adjustedX :=
    adjusted tooltipX tooltipWidth viewportWidth
             (left finalRect) (right finalRect) in
  let adjustedY :=
    adjusted tooltipY tooltipHeight viewportHeight
             (top finalRect) (bottom finalRect) in
  if negb (Qeq_bool adjustedX tooltipX) || negb (Qeq_bool adjustedY tooltipY)
  then (adjustedX, adjustedY)
  else (tooltipX, tooltipY).
End Tooltip.

(** ** Canvas size: the first half of [render] *)

Section Trigonometry.
(** [Math.cos], [Math.sin] and [Math.PI] are parameters of the model. *)
Variable Math_cos : number -> number.
Variable Math_sin : number -> number.
Variable Math_PI : number.

(** The right and bottom edge that [render] accounts for a panel. *)
Definition renderExtent (panel : Panel.t) : number * number :=
  if negb (Qeq_bool (Panel.planeRotation panel) 0)
     && negb (Qeq_bool (Panel.planeRotation panel) 0)
     && negb (Qeq_bool (Panel.planeRotation panel) 180)
  then
    let rad := (Panel.planeRotation panel * Math_PI) / 180 in
    let cos := Math_abs (Math_cos rad) in
    let sin := Math_abs (Math_sin rad) in
    let rotatedWidth := Panel.width panel * cos + Panel.height panel * sin in
    let rotatedHeight := Panel.width panel * sin + Panel.height panel * cos in
    (Panel.x panel + rotatedWidth, Panel.y panel + rotatedHeight)
  else
    (Panel.x panel + Panel.width panel, Panel.y panel + Panel.height panel).

(** The [width] and [height] attributes that [render] sets on the canvas,
    from [window.innerWidth] and [window.innerHeight]. *)
Definition canvasSize (innerWidth innerHeight : number) (ps : list Panel.t)
    : number * number :=
  match ps with
  | [] => (innerWidth, innerHeight - 100)
  | _ =>
      let '(maxX, maxY) :=
        foldl (fun (acc : number * number) (panel : Panel.t) =>
                 (Math_max acc.1 (renderExtent panel).1,
                  Math_max acc.2 (renderExtent panel).2))
              (0, 0) ps in
      (Math_max (maxX + 50) innerWidth,
       Math_max (maxY + 50) (innerHeight - 100))
  end.
End Trigonometry.

(** ** The earlier variant of the drag handlers

    The first [SolarPanelMonitor] class of the file has no edit-placement
    switch: its [handleMouseDown] picks the panel by coordinates alone and
    its [handleMouseMove] is the later one without the gate. *)

Module Legacy.
(** The predicate of [this.panels.find]: the point lies in the closed
    rectangle of the panel.  The last fallback of the later
    [updateTooltip] uses the same test. *)
Definition hit (x y : number) (p : Panel.t) : bool :=
  Qle_bool (Panel.x p) x && Qle_bool x (Panel.x p + Panel.width p)
  && Qle_bool (Panel.y p) y && Qle_bool y (Panel.y p + Panel.height p).

Definition handleMouseDown (rect : ClientRect) (e : MouseEvent) (m : Monitor)
    : Monitor :=
  let x := clientX e - left rect in
  let y := clientY e - top rect in
  match list_find (fun p => hit x y p = true) (panels m) with
  | Some (i, panel) =>
      mkMonitor (panels m) (maxPower m) true (Some i)
                (x - Panel.x panel, y - Panel.y panel)
                (editPlacementEnabled m)
  | None => m
  end.

Definition handleMouseMove (rect : ClientRect) (e : MouseEvent) (m : Monitor)
    : Monitor :=
  if isDragging m then
    match dragPanel m with
    | Some d =>
        match (panels m !! d : option Panel.t) with
        | Some dp =>
            let '(x, y) :=
              Drag.loop dp d (Drag.candidate rect e m) 0 (panels m) in
            set_panels m
              (<[d := Panel.set_y (Panel.set_x dp (Math_max 0 x))
                                  (Math_max 0 y)]> (panels m))
        | None => m
        end
    | None => m
    end
  else m.
End Legacy.

(** ** [init] and the handlers that run while it waits

    [init] installs the listeners and then awaits the two loaders, each
    of which awaits its request before it writes anything.  The handlers
    can therefore run before the layout is assigned and between the two
    loads.  An event below is one run of a listener of
    [setupEventListeners], with what it reads of the page and of the
    global scope as its arguments. *)

Section Session.
Variable parseFloat_str : string -> option number.
Variable toLowerCase : string -> string.
Variable Math_cos : number -> number.
Variable Math_sin : number -> number.
Variable Math_PI : number.

(** The predicate of the first [this.panels.find] of the later
    [handleMouseDown]: one of the three identity fields is [panelId]. *)
Definition matchesId (panelId : string) (p : Panel.t) : bool :=
  String.eqb (Panel.id p) panelId
  || match Panel.serialNumber p with
     | Some s => String.eqb s panelId
     | None => false
     end
  || match Panel.inverterSerialNumber p with
     | Some s => String.eqb s panelId
     | None => false
     end.

(** The predicate of the fallback [this.panels.find]. *)
Definition hitRotated (x y : number) (p : Panel.t) : bool :=
  if negb (Qeq_bool (Panel.planeRotation p) 0)
     && negb (Qeq_bool (Panel.planeRotation p) 0)
     && negb (Qeq_bool (Panel.planeRotation p) 180)
     && negb (Qeq_bool (Panel.planeRotation p) 90)
     && negb (Qeq_bool (Panel.planeRotation p) 270)
  then
    let rad := (Panel.planeRotation p * Math_PI) / 180 in
    let cos := Math_abs (Math_cos rad) in
    let sin := Math_abs (Math_sin rad) in
    let rotatedWidth := Panel.width p * cos + Panel.height p * sin in
    let rotatedHeight := Panel.width p * sin + Panel.height p * cos in
    Qle_bool (Panel.x p) x && Qle_bool x (Panel.x p + rotatedWidth)
    && Qle_bool (Panel.y p) y && Qle_bool y (Panel.y p + rotatedHeight)
  else
    Qle_bool (Panel.x p) x && Qle_bool x (Panel.x p + Panel.width p)
    && Qle_bool (Panel.y p) y && Qle_bool y (Panel.y p + Panel.height p).

(** The later [handleMouseDown].  [panelId] is the [data-panel-id] of the
    panel element that [document.elementFromPoint] leads to, [None] when
    there is no such element or attribute.  The object literal assigned
    to [this.dragOffset] reads [x] and [y], which are declared inside the
    fallback block and are not in scope there: [globals] is what the
    global scope binds them to, [None] when one of them is unbound.  The
    evaluation then throws [ReferenceError] after [isDragging] and
    [dragPanel] are written, and [dragOffset] stays as it was. *)
Definition handleMouseDown (panelId : option string)
    (globals : option (number * number)) (rect : ClientRect)
    (e : MouseEvent) (m : Monitor) : Monitor :=
  if negb (editPlacementEnabled m) then m
  else
    let byElement :=
      match panelId with
      | Some s => list_find (fun p => matchesId s p = true) (panels m)
      | None => None
      end in
    let found :=
      match byElement with
      | Some hit => Some hit
      | None =>
          let x := clientX e - left rect in
          let y := clientY e - top rect in
          list_find (fun p => hitRotated x y p = true) (panels m)
      end in
    match found with
    | Some (i, panel) =>
        match globals with
        | Some (x, y) =>
            mkMonitor (panels m) (maxPower m) true (Some i)
                      (x - Panel.x panel, y - Panel.y panel)
                      (editPlacementEnabled m)
        | None =>
            mkMonitor (panels m) (maxPower m) true (Some i) (dragOffset m)
                      (editPlacementEnabled m)
        end
    | None => m
    end.

(** One run of a listener: [mousedown], [mousemove], [mouseup] or
    [mouseleave], the [change] of the edit-placement checkbox, and the
    completion of a [loadPowerData] that the refresh button started. *)
Inductive Event :=
  | MouseDown (panelId : option string) (globals : option (number * number))
              (rect : ClientRect) (e : MouseEvent)
  | MouseMove (rect : ClientRect) (e : MouseEvent)
  | MouseUp
  | EditPlacement (checked : bool)
  | PowerData (resp : PowerResponse).

Definition dispatch (pm : PowerMonitor) (ev : Event) : PowerMonitor :=
  let m := monitor pm in
  match ev with
  | MouseDown panelId globals rect e =>
      mkPowerMonitor (handleMouseDown panelId globals rect e m) (powerData pm)
  | MouseMove rect e =>
      mkPowerMonitor (handleMouseMove rect e m) (powerData pm)
  | MouseUp => mkPowerMonitor (handleMouseUp m) (powerData pm)
  | EditPlacement checked =>
      mkPowerMonitor
        (mkMonitor (panels m) (maxPower m) (isDragging m) (dragPanel m)
                   (dragOffset m) checked)
        (powerData pm)
  | PowerData resp => loadPowerData parseFloat_str toLowerCase resp pm
  end.

(** [init], from the state the constructor leaves: the events in [before]
    run while the layout request is pending, then the layout is assigned,
    the events in [between] run while the power request is pending, then
    the power data is processed. *)
Definition init (before between : list Event)
    (localLayout : option (list Raw.t)) (layout : Response)
    (readings : PowerResponse) : PowerMonitor :=
  let pm := foldl dispatch constructed before in
  let pm :=
    mkPowerMonitor (loadPanelLayout localLayout layout (monitor pm))
                   (powerData pm) in
  let pm := foldl dispatch pm between in
  loadPowerData parseFloat_str toLowerCase readings pm.
End Session.

(** ** Vocabulary of the statements *)

(** No two distinct entries of the array overlap. *)
Definition NoOverlap (ps : list Panel.t) : Prop :=
  forall (i j : nat) (p q : Panel.t),
    i <> j -> ps !! i = Some p -> ps !! j = Some q ->
    panelsOverlap p q = false.

(** Everything of a panel but its position. *)
Definition frame (p : Panel.t)
    : string * option string * option string * number * number * number
      * Raw.t :=
  (Panel.id p, Panel.serialNumber p, Panel.inverterSerialNumber p,
   Panel.width p, Panel.height p, Panel.planeRotation p, Panel.spread p).

(** [o] is absent or is the number 0. *)
Definition zero_or_absent (o : option number) : Prop :=
  match o with
  | Some v => v == 0
  | None => True
  end.

(** The rectangle tested by the drag loop for a candidate position. *)
Definition dragRect (dp : Panel.t) (pos : number * number) : Rect :=
  mkRect pos.1 pos.2 (Panel.width dp) (Panel.height dp).

(** The condition of the [if] in the drag loop. *)
Definition hits (dp : Panel.t) (d : nat) (pos : number * number) (k : nat)
    (panel : Panel.t) : bool :=
  negb (k =? d)%nat && panelsOverlap (dragRect dp pos) panel.

(** The index of the last panel that the loop pushed the candidate out
    of, if any. *)
Fixpoint lastPush (dp : Panel.t) (d : nat) (pos : number * number)
    (k0 : nat) (ps : list Panel.t) : option nat :=
  match ps with
  | [] => None
  | panel :: ps' =>
      match lastPush dp d (Drag.adjust dp d pos k0 panel) (S k0) ps' with
      | Some k => Some k
      | None => if hits dp d pos k0 panel then Some k0 else None
      end
  end.

(** [j] is not before the last push-out. *)
Definition fromLastPush (last : option nat) (j : nat) : Prop :=
  match last with
  | Some k => (k <= j)%nat
  | None => True
  end.

(** The fields that the reload keeps only when they are truthy: a
    non-empty id and a width and height other than 0.  Every panel the
    monitor ever holds has them so ([loadPanelLayout_Truthy]). *)
Definition Truthy (p : Panel.t) : Prop :=
  truthy_str (Some (Panel.id p)) = true /\
  truthy_num (Some (Panel.width p)) = true /\
  truthy_num (Some (Panel.height p)) = true.

(** Same id, position, size and rotation. *)
Definition samePanel (p p' : Panel.t) : Prop :=
  Panel.id p' = Panel.id p /\
  Panel.x p' == Panel.x p /\ Panel.y p' == Panel.y p /\
  Panel.width p' == Panel.width p /\ Panel.height p' == Panel.height p /\
  Panel.planeRotation p' == Panel.planeRotation p.

(** A boolean check of [NoOverlap], for a given array. *)
Fixpoint pairwise_clear (ps : list Panel.t) : bool :=
  match ps with
  | [] => true
  | p :: ps' =>
      forallb (fun q : Panel.t => negb (panelsOverlap p q)) ps'
      && pairwise_clear ps'
  end.


(** ** Sample data *)

Module Sample.
Definition plain (i : string) (x y w h : number) : Panel.t :=
  Panel.mk i None None x y w h 0 Raw.empty.

(** The record of the scenario payload
    [{xCoordinate:-100, yCoordinate:-50, planeRotation:90,
      inverterSerialNumber:"A1"}]. *)
Definition rawA1 : Raw.t :=
  Raw.mk (Some (-100)) (Some (-50)) None None (Some 90) None None
         (Some "A1"%string) None None None None.

Definition payloadA1 : LayoutData := DataObject (Some [rawA1]) None None.

(** A record that supplies only [planeRotation: -90]. *)
Definition rawTilted : Raw.t :=
  Raw.mk None None None None (Some (-90)) None None None None None None None.

(** A record with [xCoordinate: 0, yCoordinate: 0]. *)
Definition rawOrigin : Raw.t :=
  Raw.mk (Some 0) (Some 0) None None None None None None None None None None.

(** A record with [xCoordinate: 0, x: 7, yCoordinate: 0, y: 9]. *)
Definition rawZeroOther : Raw.t :=
  Raw.mk (Some 0) (Some 0) (Some 7) (Some 9) None None None None None None
         None None.

(** A record of a local layout with [x: -30, y: -40]. *)
Definition rawLocalNegative : Raw.t :=
  Raw.mk None None (Some (-30)) (Some (-40)) None None None None None None
         None None.

(** Two panels that overlap by 70 units in x. *)
Definition twoOverlapping : list Panel.t :=
  [plain "a" 0 0 80 120; plain "b" 10 0 80 120].

(** Three panels in a row; the third is being dragged. *)
Definition row : list Panel.t :=
  [plain "q" 0 0 80 120; plain "p" 90 0 80 120; plain "d" 300 300 80 120].

Definition idle : Monitor := mkMonitor [] 0 false None (0, 0) false.

Definition dragging : Monitor :=
  mkMonitor row 400 true (Some 2%nat) (0, 0) true.

Definition canvas : ClientRect := mkClientRect 0 0.
End Sample.

(** [maxPower] is not negative and no stored reading exceeds it. *)
Definition PowerBound (parseFloat_str : string -> option number)
    (pm : PowerMonitor) : Prop :=
  0 <= maxPower (monitor pm) /\
  forall (k : string) (d : Device.t),
    powerData pm !! k = Some d ->
    getPowerValue parseFloat_str d <= maxPower (monitor pm).

(** What holds of the loop state after any number of devices. *)
Definition loop_inv (parseFloat_str : string -> option number)
    (toLowerCase : string -> string) (l : list Device.t)
    (st : PowerLoad.state) : Prop :=
  0 <= st.2 /\
  (st.2 = 0 \/ exists d, d ∈ l /\ getPowerValue parseFloat_str d = st.2) /\
  map_Forall (fun k d =>
                getPowerValue parseFloat_str d <= st.2 /\ d ∈ l /\
                exists s, PowerLoad.serial d = Some s /\ s <> ""%string /\
                          (k = s \/ k = toLowerCase s)) st.1.


(** ** Sample readings *)

Module SampleReadings.
(** An instance of the string parameter of [parseFloat] that reads plain
    decimal numerals ([digits] or [digits.digits]) and nothing else. *)
Definition digit (c : Ascii.ascii) : option Z :=
  let n := Ascii.nat_of_ascii c in
  if (48 <=? n)%nat && (n <=? 57)%nat then Some (Z.of_nat (n - 48)) else None.

Fixpoint fraction (s : string) (num : Z) (den : positive) : option number :=
  match s with
  | EmptyString => Some (num # den)
  | String c s' =>
      match digit c with
      | Some d => fraction s' (num * 10 + d)%Z (den * 10)%positive
      | None => None
      end
  end.

Fixpoint numeral (s : string) (num : Z) (seen : bool) : option number :=
  match s with
  | EmptyString => if seen then Some (num # 1) else None
  | String c s' =>
      match digit c with
      | Some d => numeral s' (num * 10 + d)%Z true
      | None =>
          if seen && (Ascii.nat_of_ascii c =? 46)%nat then fraction s' num 1
          else None
      end
  end.

Definition parseDecimal (s : string) : option number := numeral s 0 false.

(** An instance of [toLowerCase] for ASCII letters. *)
Definition lowerChar (c : Ascii.ascii) : Ascii.ascii :=
  let n := Ascii.nat_of_ascii c in
  if (65 <=? n)%nat && (n <=? 90)%nat then Ascii.ascii_of_nat (n + 32) else c.

Fixpoint lower (s : string) : string :=
  match s with
  | EmptyString => EmptyString
  | String c s' => String (lowerChar c) (lower s')
  end.

(** The inverter of the scenario
    [{SERIAL:"A1", p_3phsum_kw:"2.5", DEVICE_TYPE:"Inverter"}]. *)
Definition inverterA1 : Device.t :=
  Device.mk (Some "A1"%string) None None None None None None
            (Some "Inverter"%string) None None
            (Some (JStr "2.5")) None None None None None None None None None.

(** A device that is not an inverter. *)
Definition meter : Device.t :=
  Device.mk (Some "M9"%string) None None None None None None
            (Some "Power Meter"%string) None None
            None None (Some (JNum 7000)) None None None None None None None.

Definition payload : PowerPayload := PowerArray [meter; inverterA1].

(** The monitor after the scenario layout and these readings are loaded. *)
Definition ready : PowerMonitor :=
  loadPowerData parseDecimal lower (PowerJson payload)
    (mkPowerMonitor
       (loadPanelLayout None (Json Sample.payloadA1) (monitor constructed))
       (powerData constructed)).
End SampleReadings.


(** * Properties *)

(** ** Comparisons and [Math.max] / [Math.min] *)

Lemma Qlt_bool_true (a b : number) : Qlt_bool a b = true <-> a < b.
Proof.
  unfold Qlt_bool. rewrite negb_true_iff. split.
  - intros H. apply Qnot_le_lt. intros Hle.
    apply Qle_bool_iff in Hle. congruence.
  - intros H. destruct (Qle_bool b a) eqn:E; [|reflexivity].
    apply Qle_bool_iff in E. lra.
Qed.

Lemma Qlt_bool_false (a b : number) : Qlt_bool a b = false <-> b <= a.
Proof.
  unfold Qlt_bool. rewrite negb_false_iff. apply Qle_bool_iff.
Qed.

Lemma Qle_bool_false (a b : number) : Qle_bool a b = false <-> b < a.
Proof.
  split.
  - intros H. apply Qnot_le_lt. intros Hle.
    apply Qle_bool_iff in Hle. congruence.
  - intros H. destruct (Qle_bool a b) eqn:E; [|reflexivity].
    apply Qle_bool_iff in E. lra.
Qed.

Lemma Math_max_l (a b : number) : a <= Math_max a b.
Proof.
  unfold Math_max. destruct (Qle_bool a b) eqn:E; [|lra].
  now apply Qle_bool_iff.
Qed.

Lemma Math_max_r (a b : number) : b <= Math_max a b.
Proof.
  unfold Math_max. destruct (Qle_bool a b) eqn:E; [lra|].
  apply Qle_bool_false in E. lra.
Qed.

Lemma Math_max_0_id (a : number) : 0 <= a -> Math_max 0 a = a.
Proof.
  intros H. unfold Math_max.
  apply Qle_bool_iff in H. now rewrite H.
Qed.

Lemma Math_min_case (a b : number) :
  (Math_min a b = a /\ a <= b) \/ (Math_min a b = b /\ b < a).
Proof.
  unfold Math_min. destruct (Qle_bool a b) eqn:E.
  - left. split; [reflexivity|]. now apply Qle_bool_iff.
  - right. split; [reflexivity|]. now apply Qle_bool_false.
Qed.

(** ** [panelsOverlap] as a proposition *)

Lemma panelsOverlap_true (a b : Rect) :
  panelsOverlap a b = true <->
  rx b < rx a + rw a /\ rx a < rx b + rw b /\
  ry b < ry a + rh a /\ ry a < ry b + rh b.
Proof.
  unfold panelsOverlap. rewrite negb_true_iff, !orb_false_iff.
  rewrite !Qle_bool_false. tauto.
Qed.

Lemma panelsOverlap_false (a b : Rect) :
  panelsOverlap a b = false <->
  rx a + rw a <= rx b \/ rx b + rw b <= rx a \/
  ry a + rh a <= ry b \/ ry b + rh b <= ry a.
Proof.
  unfold panelsOverlap. rewrite negb_false_iff, !orb_true_iff.
  rewrite !Qle_bool_iff. tauto.
Qed.

Lemma panelsOverlap_sym (a b : Rect) : panelsOverlap a b = panelsOverlap b a.
Proof.
  unfold panelsOverlap. f_equal.
  destruct (Qle_bool (rx a + rw a) (rx b)), (Qle_bool (rx b + rw b) (rx a)),
    (Qle_bool (ry a + rh a) (ry b)), (Qle_bool (ry b + rh b) (ry a));
    reflexivity.
Qed.

(** ** A pass that displaces nothing *)

Section Unmoved.
Import Resolve.

(** A loop whose body can only raise the flag: when the flag is still
    down at the end, no iteration changed the state, and every iteration
    saw what the body sees when it leaves the flag down. *)
Lemma foldl_unmoved {A : Type} (f : state -> A -> state)
    (seen : A -> list Panel.t -> Prop) :
  (forall st a, snd (f st a) = false -> f st a = st /\ seen a (fst st)) ->
  forall (l : list A) (st : state),
    snd (foldl f st l) = false ->
    foldl f st l = st /\ Forall (fun a => seen a (fst st)) l.
Proof.
  intros Hf l. induction l as [|a l IH]; intros st H; simpl in *.
  - split; [reflexivity | constructor].
  - destruct (IH _ H) as [Heq Hall].
    rewrite Heq in H. destruct (Hf _ _ H) as [Hst Ha].
    rewrite Heq, Hst. split; [reflexivity|].
    constructor; [exact Ha|]. now rewrite Hst in Hall.
Qed.

Lemma pairStep_unmoved (i : nat) (st : state) (j : nat) :
  snd (pairStep i st j) = false ->
  pairStep i st j = st /\
  (forall p q : Panel.t, fst st !! i = Some p -> fst st !! j = Some q ->
     panelsOverlap p q = false).
Proof.
  unfold pairStep.
  destruct (fst st !! i) as [p1|] eqn:Ei; [|split; [reflexivity | discriminate]].
  destruct (fst st !! j) as [p2|] eqn:Ej; [|split; [reflexivity | discriminate]].
  destruct (panelsOverlap p1 p2) eqn:Eo.
  - destruct (separate p1 p2). simpl. discriminate.
  - intros _. split; [reflexivity|]. intros p q [= <-] [= <-]. exact Eo.
Qed.

Lemma innerLoop_unmoved (st : state) (i : nat) :
  snd (innerLoop st i) = false ->
  innerLoop st i = st /\
  (forall (j : nat) (p q : Panel.t), (i < j)%nat ->
     fst st !! i = Some p -> fst st !! j = Some q ->
     panelsOverlap p q = false).
Proof.
  unfold innerLoop. intros H.
  destruct (foldl_unmoved (pairStep i)
              (fun j ps => forall p q : Panel.t,
                 ps !! i = Some p -> ps !! j = Some q ->
                 panelsOverlap p q = false)
              (pairStep_unmoved i) _ _ H) as [Heq Hall].
  split; [exact Heq|]. intros j p q Hij Hp Hq.
  rewrite Forall_forall in Hall. apply (Hall j); [|assumption..].
  apply elem_of_seq. apply lookup_lt_Some in Hq. lia.
Qed.

Lemma pass_unmoved (ps : list Panel.t) :
  snd (pass ps) = false -> pass ps = (ps, false) /\ NoOverlap ps.
Proof.
  unfold pass. intros H.
  destruct (foldl_unmoved innerLoop
              (fun i ps => forall (j : nat) (p q : Panel.t), (i < j)%nat ->
                 ps !! i = Some p -> ps !! j = Some q ->
                 panelsOverlap p q = false)
              innerLoop_unmoved _ _ H) as [Heq Hall].
  split; [exact Heq|]. simpl in Hall. rewrite Forall_forall in Hall.
  assert (Hlt : forall (i j : nat) (p q : Panel.t), (i < j)%nat ->
            ps !! i = Some p -> ps !! j = Some q -> panelsOverlap p q = false).
  { intros i j p q Hij Hp Hq. apply (Hall i) with (j := j); [|assumption..].
    apply elem_of_seq. apply lookup_lt_Some in Hp. lia. }
  intros i j p q Hne Hp Hq.
  destruct (Nat.lt_total i j) as [Hij|[Hij|Hij]].
  - now apply (Hlt i j).
  - contradiction.
  - rewrite panelsOverlap_sym. now apply (Hlt j i).
Qed.

(** The converse: a pass over an array without overlaps changes nothing. *)
Lemma pairStep_NoOverlap (i j : nat) (ps : list Panel.t) :
  i <> j -> NoOverlap ps -> pairStep i (ps, false) j = (ps, false).
Proof.
  intros Hne Hno. unfold pairStep. simpl.
  destruct (ps !! i) as [p1|] eqn:Ei; [|reflexivity].
  destruct (ps !! j) as [p2|] eqn:Ej; [|reflexivity].
  now rewrite (Hno i j p1 p2 Hne Ei Ej).
Qed.

Lemma innerLoop_NoOverlap (i : nat) (ps : list Panel.t) :
  NoOverlap ps -> innerLoop (ps, false) i = (ps, false).
Proof.
  intros Hno. unfold innerLoop. simpl fst.
  generalize (length ps - S i)%nat as n.
  assert (H : forall n k, (i < k)%nat ->
            foldl (pairStep i) (ps, false) (seq k n) = (ps, false)).
  { induction n as [|n IH]; intros k Hk; simpl; [reflexivity|].
    rewrite pairStep_NoOverlap by (assumption || lia). apply IH. lia. }
  intros n. apply H. lia.
Qed.

Lemma pass_NoOverlap (ps : list Panel.t) :
  NoOverlap ps -> pass ps = (ps, false).
Proof.
  intros Hno. unfold pass. generalize (seq 0 (length ps)) as l.
  induction l as [|i l IH]; simpl; [reflexivity|].
  now rewrite innerLoop_NoOverlap.
Qed.

(** The exit condition of the [while] loop holds of what [run] returns:
    the recursion never stops for lack of allowed passes. *)
Lemma while_exit (remaining : nat) (ps : list Panel.t) (moved : bool)
    (iterations : nat) :
  (maxIterations <= remaining + iterations)%nat ->
  (while remaining ps moved iterations).1.2 = false \/
  (maxIterations <= (while remaining ps moved iterations).2)%nat.
Proof.
  revert ps moved iterations.
  induction remaining as [|r IH]; intros ps moved iterations Hle; simpl.
  - right. lia.
  - destruct moved; simpl.
    + destruct (iterations <? maxIterations)%nat eqn:E.
      * destruct (pass ps) as [ps' moved']. apply IH. lia.
      * right. apply Nat.ltb_ge in E. exact E.
    + left. reflexivity.
Qed.

Lemma while_unmoved (remaining : nat) (ps : list Panel.t) (moved : bool)
    (iterations : nat) :
  (while remaining ps moved iterations).1.2 = false ->
  (moved = false /\ (while remaining ps moved iterations).1.1 = ps)
  \/ NoOverlap (while remaining ps moved iterations).1.1.
Proof.
  revert ps moved iterations.
  induction remaining as [|r IH]; intros ps moved iterations; simpl.
  - intros ->. left. split; reflexivity.
  - destruct moved; simpl.
    + destruct (iterations <? maxIterations)%nat eqn:E; simpl.
      * destruct (pass ps) as [ps' moved'] eqn:Ep. intros H.
        destruct (IH ps' moved' (S iterations) H) as [[-> Heq]|Hno].
        -- right. rewrite Heq.
           destruct (pass_unmoved ps) as [Hp Hno]; [now rewrite Ep|].
           rewrite Ep in Hp. injection Hp as ->. exact Hno.
        -- right. exact Hno.
      * discriminate.
    + intros _. left. split; reflexivity.
Qed.
End Unmoved.

(** ** Invariants of the relaxation loop *)

Section LoopInvariants.
Import Resolve.

(** A property of the array that every execution of the pair body keeps
    is kept by the nested loops, by a pass and by the whole call. *)
Variable Inv : list Panel.t -> Prop.
Hypothesis pairStep_Inv :
  forall (i j : nat) (st : state), Inv (fst st) -> Inv (fst (pairStep i st j)).

Lemma innerLoop_Inv (st : state) (i : nat) :
  Inv (fst st) -> Inv (fst (innerLoop st i)).
Proof.
  unfold innerLoop. generalize (seq (S i) (length (fst st) - S i)) as l.
  intros l. revert st. induction l as [|j l IH]; intros st H; simpl.
  - exact H.
  - apply IH. now apply pairStep_Inv.
Qed.

Lemma pass_Inv (ps : list Panel.t) : Inv ps -> Inv (fst (pass ps)).
Proof.
  unfold pass. intros H.
  change (Inv (fst (ps, false))) in H.
  generalize dependent (ps, false). generalize (seq 0 (length ps)) as l.
  induction l as [|i l IH]; intros st H; simpl.
  - exact H.
  - apply IH. now apply innerLoop_Inv.
Qed.

Lemma while_Inv (remaining : nat) (ps : list Panel.t) (moved : bool)
    (iterations : nat) :
  Inv ps -> Inv (while remaining ps moved iterations).1.1.
Proof.
  revert ps moved iterations.
  induction remaining as [|r IH]; intros ps moved iterations H; simpl.
  - exact H.
  - destruct (moved && (iterations <? maxIterations)%nat); [|exact H].
    pose proof (pass_Inv ps H) as Hp.
    destruct (pass ps) as [ps' moved']. now apply IH.
Qed.

Lemma resolveOverlaps_Inv (ps : list Panel.t) :
  Inv ps -> Inv (resolveOverlaps ps).
Proof. apply while_Inv. Qed.
End LoopInvariants.

(** *** The frame: only positions are written *)

Lemma separate_frame (p1 p2 : Panel.t) :
  frame (Resolve.separate p1 p2).1 = frame p1 /\
  frame (Resolve.separate p1 p2).2 = frame p2.
Proof.
  unfold Resolve.separate.
  repeat match goal with |- context [if ?b then _ else _] => destruct b end;
    split; reflexivity.
Qed.

Lemma pairStep_frame (ps0 : list Panel.t) (i j : nat) (st : Resolve.state) :
  frame <$> fst st = frame <$> ps0 ->
  frame <$> fst (Resolve.pairStep i st j) = frame <$> ps0.
Proof.
  intros H. unfold Resolve.pairStep.
  destruct (fst st !! i) as [p1|] eqn:Ei; [|exact H].
  destruct (fst st !! j) as [p2|] eqn:Ej; [|exact H].
  destruct (panelsOverlap p1 p2); [|exact H].
  destruct (separate_frame p1 p2) as [H1 H2].
  destruct (Resolve.separate p1 p2) as [q1 q2]. simpl in *.
  rewrite !list_fmap_insert, H1, H2, <- H.
  rewrite (list_insert_id (frame <$> fst st) i (frame p1))
    by (now rewrite list_lookup_fmap, Ei).
  apply list_insert_id. now rewrite list_lookup_fmap, Ej.
Qed.

Lemma resolveOverlaps_frame (ps : list Panel.t) :
  frame <$> resolveOverlaps ps = frame <$> ps.
Proof.
  apply (resolveOverlaps_Inv (fun l => frame <$> l = frame <$> ps)).
  - intros i j st. apply pairStep_frame.
  - reflexivity.
Qed.

(** *** Coordinates that are non-negative stay so *)

Lemma overlap_moveAmount_pos (a b : number) :
  0 < a -> 0 < b -> 0 < (Math_min a b + Resolve.padding) / 2.
Proof.
  intros Ha Hb. unfold Resolve.padding.
  destruct (Math_min_case a b) as [[-> _]|[-> _]];
    apply Qlt_shift_div_l; lra.
Qed.

(** An array without overlaps is returned as it is. *)
Lemma resolveOverlaps_NoOverlap (ps : list Panel.t) :
  NoOverlap ps -> Resolve.run ps = (ps, false, 1%nat).
Proof.
  intros Hno. unfold Resolve.run, Resolve.maxIterations. simpl.
  now rewrite (pass_NoOverlap ps Hno).
Qed.

(** ** The normalizer *)

Lemma of_index_nonneg (n : nat) : 0 <= of_index n.
Proof.
  unfold of_index. change 0 with (inject_Z 0).
  rewrite <- Zle_Qle. lia.
Qed.

Lemma Math_min_le_l (a b : number) : Math_min a b <= a.
Proof. destruct (Math_min_case a b) as [[-> ?]|[-> ?]]; lra. Qed.

Lemma Math_min_le_r (a b : number) : Math_min a b <= b.
Proof. destruct (Math_min_case a b) as [[-> ?]|[-> ?]]; lra. Qed.

Lemma foldl_Math_min_le_init (l : list number) (v : number) :
  foldl Math_min v l <= v.
Proof.
  revert v. induction l as [|b l IH]; intros v; simpl; [lra|].
  eapply Qle_trans; [apply IH | apply Math_min_le_l].
Qed.

Lemma foldl_Math_min_le_elem (l : list number) (v a : number) :
  a ∈ l -> foldl Math_min v l <= a.
Proof.
  revert v. induction l as [|b l IH]; intros v Ha; simpl; [inversion Ha|].
  apply elem_of_cons in Ha as [->|Ha]; [|now apply IH].
  eapply Qle_trans; [apply foldl_Math_min_le_init | apply Math_min_le_r].
Qed.

Lemma Math_min_spread_le (l : list number) (m a : number) :
  Math_min_spread l = Some m -> a ∈ l -> m <= a.
Proof.
  destruct l as [|v l]; simpl; [discriminate|].
  intros [= <-] Ha.
  apply elem_of_cons in Ha as [->|Ha];
    [apply foldl_Math_min_le_init | now apply foldl_Math_min_le_elem].
Qed.

Lemma yOffset_ge_50 (arr : list Raw.t) : 50 <= Load.yOffset arr.
Proof.
  unfold Load.yOffset. destruct (Math_min_spread _) as [minY|]; [|lra].
  destruct (Qlt_bool minY 0); [|lra].
  unfold Math_abs. pose proof (Qabs_nonneg minY). lra.
Qed.

Lemma yCoord_yOffset_ge_50 (arr : list Raw.t) (r : Raw.t) :
  r ∈ arr -> 50 <= Load.yCoord r + Load.yOffset arr.
Proof.
  intros Hr. unfold Load.yOffset.
  destruct (Math_min_spread _) as [minY|] eqn:E.
  - assert (Hle : minY <= Load.yCoord r).
    { eapply Math_min_spread_le; [exact E|].
      apply list_elem_of_fmap. now exists r. }
    destruct (Qlt_bool minY 0) eqn:El.
    + apply Qlt_bool_true in El. unfold Math_abs.
      pose proof (Qabs_neg minY) as Ha. lra.
    + apply Qlt_bool_false in El. lra.
  - destruct arr; [inversion Hr | discriminate].
Qed.

(** The projections of a normalized panel, read off the object literal. *)
Lemma normalize_x (yo : number) (i : nat) (r : Raw.t) :
  Panel.x (Load.normalize yo i r) =
  or_num_default (or_num (Raw.xCoordinate r) (Raw.x r))
                 (of_index (i mod 10) * 120 + 50).
Proof.
  unfold Load.normalize.
  repeat match goal with |- context [if ?b then _ else _] => destruct b end;
    reflexivity.
Qed.

Lemma normalize_y (yo : number) (i : nat) (r : Raw.t) :
  Panel.y (Load.normalize yo i r) =
  or_num_default (or_num (Raw.yCoordinate r) (Raw.y r))
                 (of_index (i / 10) * 120 + 50) + yo.
Proof.
  unfold Load.normalize.
  repeat match goal with |- context [if ?b then _ else _] => destruct b end;
    reflexivity.
Qed.

Lemma normalize_planeRotation (yo : number) (i : nat) (r : Raw.t) :
  Panel.planeRotation (Load.normalize yo i r) =
  js_rem (or_num_default (Raw.planeRotation r) 0) 360.
Proof.
  unfold Load.normalize.
  repeat match goal with |- context [if ?b then _ else _] => destruct b end;
    reflexivity.
Qed.

(** [a || b || d] is either the fallback [d] or what [a || b || 0] is. *)
Lemma or_num_default_cases (o : option number) (d : number) :
  (or_num_default o d = d /\ or_num_default o 0 = 0) \/
  (or_num_default o d = or_num_default o 0 /\
   exists v, o = Some v /\ or_num_default o d = v /\ ~ v == 0).
Proof.
  destruct o as [v|]; simpl; [|now left].
  destruct (Qeq_bool v 0) eqn:E; [now left|].
  right. split; [reflexivity|]. exists v. repeat split.
  now apply Qeq_bool_neq.
Qed.

Lemma normalize_y_ge_50 (arr : list Raw.t) (i : nat) (r : Raw.t) :
  r ∈ arr -> 50 <= Panel.y (Load.normalize (Load.yOffset arr) i r).
Proof.
  intros Hr. rewrite normalize_y.
  pose proof (yOffset_ge_50 arr) as Ho.
  pose proof (yCoord_yOffset_ge_50 arr r Hr) as Hc. unfold Load.yCoord in Hc.
  pose proof (of_index_nonneg (i / 10)) as Hi.
  destruct (or_num_default_cases
              (or_num (Raw.yCoordinate r) (Raw.y r))
              (of_index (i / 10) * 120 + 50)) as [[-> _]|[-> _]]; lra.
Qed.

Lemma normalize_x_nonneg (yo : number) (i : nat) (r : Raw.t) :
  (forall v, or_num (Raw.xCoordinate r) (Raw.x r) = Some v -> 0 <= v) ->
  0 <= Panel.x (Load.normalize yo i r).
Proof.
  intros H. rewrite normalize_x.
  pose proof (of_index_nonneg (i mod 10)) as Hi.
  destruct (or_num_default_cases
              (or_num (Raw.xCoordinate r) (Raw.x r))
              (of_index (i mod 10) * 120 + 50))
    as [[-> _]|[_ (v & Hv & -> & _)]]; [lra|]. now apply H.
Qed.

(** ** The drag step *)

Lemma adjust_not_hit (dp : Panel.t) (d : nat) (pos : number * number)
    (k : nat) (panel : Panel.t) :
  hits dp d pos k panel = false -> Drag.adjust dp d pos k panel = pos.
Proof.
  unfold hits, dragRect, Drag.adjust. destruct pos as [x y]. simpl.
  now intros ->.
Qed.

(** Right after a push-out the candidate is clear of that panel. *)
Lemma adjust_hit_clear (dp : Panel.t) (d : nat) (pos : number * number)
    (k : nat) (panel : Panel.t) :
  hits dp d pos k panel = true ->
  panelsOverlap (dragRect dp (Drag.adjust dp d pos k panel)) panel = false.
Proof.
  unfold hits, dragRect, Drag.adjust. destruct pos as [x y]. simpl.
  intros ->. apply panelsOverlap_false. unfold Drag.padding.
  repeat match goal with |- context [if ?b then _ else _] => destruct b end;
    simpl; lra.
Qed.

Lemma loop_lastPush (dp : Panel.t) (d : nat) (ps : list Panel.t) :
  forall (k0 : nat) (pos : number * number),
    (lastPush dp d pos k0 ps = None -> Drag.loop dp d pos k0 ps = pos) /\
    (forall k, lastPush dp d pos k0 ps = Some k -> (k0 <= k)%nat) /\
    (forall (j : nat) (q : Panel.t),
       ps !! j = Some q -> (k0 + j)%nat <> d ->
       fromLastPush (lastPush dp d pos k0 ps) (k0 + j) ->
       panelsOverlap (dragRect dp (Drag.loop dp d pos k0 ps)) q = false).
Proof.
  induction ps as [|panel ps IH]; intros k0 pos; simpl.
  - repeat split; [discriminate | intros j q Hq; inversion Hq].
  - destruct (IH (S k0) (Drag.adjust dp d pos k0 panel))
      as (Hnone & Hsome & Hclear).
    destruct (lastPush dp d (Drag.adjust dp d pos k0 panel) (S k0) ps)
      as [k|] eqn:El.
    + split; [discriminate|]. split.
      * intros k' [= <-]. specialize (Hsome k eq_refl). lia.
      * intros [|j] q Hq Hne Hfrom; simpl in *.
        -- specialize (Hsome k eq_refl). lia.
        -- apply (Hclear j q Hq); lia.
    + rewrite (Hnone eq_refl).
      destruct (hits dp d pos k0 panel) eqn:Eh.
      * split; [discriminate|]. split; [intros k' [= <-]; lia|].
        intros [|j] q Hq Hne _; simpl in *.
        -- injection Hq as <-. now apply adjust_hit_clear with (k := k0).
        -- rewrite <- (Hnone eq_refl). apply (Hclear j q Hq); [lia | exact I].
      * rewrite (adjust_not_hit _ _ _ _ _ Eh) in *.
        split; [reflexivity|]. split; [discriminate|].
        intros [|j] q Hq Hne _; simpl in *.
        -- injection Hq as <-. unfold hits in Eh.
           apply andb_false_iff in Eh as [Eh|Eh]; [|exact Eh].
           apply negb_false_iff, Nat.eqb_eq in Eh. lia.
        -- rewrite <- (Hnone eq_refl). apply (Hclear j q Hq); [lia | exact I].
Qed.

(** ** Deciding [NoOverlap] on a given array *)

Lemma pairwise_clear_NoOverlap (ps : list Panel.t) :
  pairwise_clear ps = true -> NoOverlap ps.
Proof.
  induction ps as [|p0 ps IH]; simpl.
  - intros _ i j p q _ Hp. inversion Hp.
  - intros H. apply andb_true_iff in H as [Hhd Htl].
    rewrite forallb_forall in Hhd.
    assert (Hfst : forall (j : nat) (q : Panel.t),
              ps !! j = Some q -> panelsOverlap p0 q = false).
    { intros j q Hq. apply negb_true_iff, Hhd.
      apply list_elem_of_In. eapply list_elem_of_lookup_2. exact Hq. }
    intros [|i] [|j] p q Hne Hp Hq; simpl in *.
    + contradiction.
    + injection Hp as <-. now apply (Hfst j).
    + injection Hq as <-. rewrite panelsOverlap_sym. now apply (Hfst i).
    + apply (IH Htl i j); [lia | assumption..].
Qed.


(** * The properties of the specification *)

(** C1.  When [resolveOverlaps] ends because a full pass displaced nothing
    ([moved] is false on exit, which is the case whenever it ends below
    the cap of 100 passes), no two distinct panels of the resulting array
    overlap: [panelsOverlap] is false for every such pair. *)
Theorem resolveOverlaps_converged (ps : list Panel.t) :
  (Resolve.run ps).1.2 = false \/
  ((Resolve.run ps).2 < Resolve.maxIterations)%nat ->
  NoOverlap (resolveOverlaps ps).
Proof.
  intros H.
  assert (Hmoved : (Resolve.run ps).1.2 = false).
  { destruct H as [H|H]; [exact H|].
    destruct (while_exit Resolve.maxIterations ps true 0) as [He|He];
      [lia | exact He | unfold Resolve.run in H; lia]. }
  unfold resolveOverlaps, Resolve.run in *.
  destruct (while_unmoved _ _ _ _ Hmoved) as [[Hf _]|Hno];
    [discriminate | exact Hno].
Qed.

Lemma resolveOverlaps_converged_witness :
  (Resolve.run Sample.twoOverlapping).1.2 = false /\
  (Resolve.run Sample.twoOverlapping).2 = 4%nat /\
  NoOverlap (resolveOverlaps Sample.twoOverlapping).
Proof.
  split; [vm_compute; reflexivity|].
  split; [vm_compute; reflexivity|].
  apply (resolveOverlaps_converged Sample.twoOverlapping).
  left. vm_compute. reflexivity.
Defined.

(** C10.  [resolveOverlaps] writes positions only: the array keeps its
    length, and at every index the panel keeps its id, serialNumber,
    inverterSerialNumber, width, height and planeRotation. *)
Theorem resolveOverlaps_frame_preserved (ps : list Panel.t) :
  length (resolveOverlaps ps) = length ps /\
  Forall2
    (fun p p' : Panel.t =>
       Panel.id p' = Panel.id p /\
       Panel.serialNumber p' = Panel.serialNumber p /\
       Panel.inverterSerialNumber p' = Panel.inverterSerialNumber p /\
       Panel.width p' = Panel.width p /\
       Panel.height p' = Panel.height p /\
       Panel.planeRotation p' = Panel.planeRotation p)
    ps (resolveOverlaps ps).
Proof.
  pose proof (resolveOverlaps_frame ps) as H.
  split.
  - apply (f_equal length) in H. now rewrite !length_fmap in H.
  - symmetry in H. apply list_eq_Forall2 in H.
    apply (proj1 (Forall2_fmap frame frame eq ps (resolveOverlaps ps))) in H.
    eapply Forall2_impl; [exact H|].
    intros p p' Hf. unfold frame in Hf. simpl in Hf.
    injection Hf as -> -> -> -> -> -> _. repeat split.
Qed.

(** C4.  [createDefaultPanels] makes exactly 12 panels, panel [i] in
    column [i mod 4] and row [i / 4] of a grid whose pitch is the tall
    dimension plus the 20-unit spacing, with rotation 0 for even [i] and
    90 for odd [i] (and the dimensions swapped accordingly); no two of the
    12 overlap, and this is the array the monitor holds after a load that
    found no panel or failed. *)
Theorem createDefaultPanels_grid :
  length createDefaultPanels = 12%nat /\
  createDefaultPanels =
    map (fun i : nat =>
           let even := Nat.even i in
           Panel.mk ("panel-" +:+ pretty i) (Some ("SN-" +:+ pretty i)) None
             (50 + of_index (i mod 4) * (120 + 20))
             (50 + of_index (i / 4) * (120 + 20))
             (if even then 80 else 120) (if even then 120 else 80)
             (if even then 0 else 90) Raw.empty)
        (seq 0 12) /\
  NoOverlap createDefaultPanels /\
  (forall m : Monitor,
     panels (loadPanelLayout None (Json (DataArray [])) m)
       = createDefaultPanels /\
     panels (loadPanelLayout None (Json (DataObject None None None)) m)
       = createDefaultPanels /\
     panels (loadPanelLayout None NetworkError m) = createDefaultPanels /\
     panels (loadPanelLayout None HttpError m) = createDefaultPanels).
Proof.
  assert (Hno : NoOverlap createDefaultPanels).
  { apply pairwise_clear_NoOverlap. vm_compute. reflexivity. }
  split; [reflexivity|]. split; [vm_compute; reflexivity|].
  split; [exact Hno|].
  intros m. unfold loadPanelLayout. simpl.
  unfold resolveOverlaps. rewrite (resolveOverlaps_NoOverlap _ Hno).
  repeat split.
Qed.

(** C8.  Loading the payload
    [{result:{panels:[{xCoordinate:-100, yCoordinate:-50,
      planeRotation:90, inverterSerialNumber:"A1"}]}}]
    gives one panel: the y offset is 100, so y = 50 (in particular
    y >= 0), planeRotation = 90 and width/height = (120, 80), the default
    80 and 120 swapped. *)
Theorem loadPanelLayout_scenario_A1 :
  Load.yOffset (Load.panelsArray Sample.payloadA1) = 100 /\
  forall m : Monitor,
    exists p : Panel.t,
      panels (loadPanelLayout None (Json Sample.payloadA1) m) = [p] /\
      Load.fromApi (Load.panelsArray Sample.payloadA1) = [p] /\
      Panel.id p = "A1"%string /\
      Panel.y p = 50 /\ 0 <= Panel.y p /\
      Panel.planeRotation p = 90 /\
      Panel.width p = 120 /\ Panel.height p = 80.
Proof.
  split; [vm_compute; reflexivity|].
  intros m. eexists. split; [vm_compute; reflexivity|].
  split; [vm_compute; reflexivity|].
  simpl. repeat split. discriminate.
Qed.

(** A zero in the first or in the second operand of [a || b || d] is
    skipped like an absent value. *)
Lemma or_num_zero_l (a b : option number) (d : number) :
  zero_or_absent a ->
  or_num_default (or_num a b) d = or_num_default (or_num None b) d.
Proof.
  unfold or_num, zero_or_absent. destruct a as [va|]; simpl; [|reflexivity].
  intros Ha. now rewrite (Qeq_eq_bool _ _ Ha).
Qed.

Lemma or_num_zero_r (a b : option number) (d : number) :
  zero_or_absent b ->
  or_num_default (or_num a b) d = or_num_default (or_num a None) d.
Proof.
  unfold or_num, zero_or_absent. destruct (truthy_num a); [reflexivity|].
  destruct b as [vb|]; simpl; [|reflexivity].
  intros Hb. now rewrite (Qeq_eq_bool _ _ Hb).
Qed.

(** C9 (as the code has it).  A raw record whose explicit x is the number
    0, in [xCoordinate] or in [x], is normalized as if that field were
    missing: the panel's x is what it would be without the field.  So it
    is the other field of the pair when that holds a number other than 0,
    and the grid fallback [(index mod 10) * 120 + 50] instead of 0 when
    it does not.  The same holds for a y of 0, whose fallback is
    [floor(index / 10) * 120 + 50]; the y offset is added in either
    case. *)
Theorem normalize_zero_is_missing (yOffset : number) (index : nat)
    (panel : Raw.t) :
  (zero_or_absent (Raw.xCoordinate panel) ->
   Panel.x (Load.normalize yOffset index panel)
     = Panel.x (Load.normalize yOffset index
                  (Raw.without_xCoordinate panel))) /\
  (zero_or_absent (Raw.x panel) ->
   Panel.x (Load.normalize yOffset index panel)
     = Panel.x (Load.normalize yOffset index (Raw.without_x panel))) /\
  (zero_or_absent (Raw.xCoordinate panel) -> zero_or_absent (Raw.x panel) ->
   Panel.x (Load.normalize yOffset index panel)
     = of_index (index mod 10) * 120 + 50) /\
  (zero_or_absent (Raw.yCoordinate panel) ->
   Panel.y (Load.normalize yOffset index panel)
     = Panel.y (Load.normalize yOffset index
                  (Raw.without_yCoordinate panel))) /\
  (zero_or_absent (Raw.y panel) ->
   Panel.y (Load.normalize yOffset index panel)
     = Panel.y (Load.normalize yOffset index (Raw.without_y panel))) /\
  (zero_or_absent (Raw.yCoordinate panel) -> zero_or_absent (Raw.y panel) ->
   Panel.y (Load.normalize yOffset index panel)
     = of_index (index / 10) * 120 + 50 + yOffset) /\
  (forall v : number,
     zero_or_absent (Raw.xCoordinate panel) ->
     Raw.x panel = Some v -> ~ v == 0 ->
     Panel.x (Load.normalize yOffset index panel) = v) /\
  (forall v : number,
     zero_or_absent (Raw.x panel) ->
     Raw.xCoordinate panel = Some v -> ~ v == 0 ->
     Panel.x (Load.normalize yOffset index panel) = v) /\
  (forall v : number,
     zero_or_absent (Raw.yCoordinate panel) ->
     Raw.y panel = Some v -> ~ v == 0 ->
     Panel.y (Load.normalize yOffset index panel) = v + yOffset) /\
  (forall v : number,
     zero_or_absent (Raw.y panel) ->
     Raw.yCoordinate panel = Some v -> ~ v == 0 ->
     Panel.y (Load.normalize yOffset index panel) = v + yOffset).
Proof.
  assert (Hother : forall (a : option number) (v d : number),
            zero_or_absent a -> ~ v == 0 ->
            or_num_default (or_num a (Some v)) d = v).
  { intros a v d Ha Hv. rewrite or_num_zero_l by exact Ha.
    cbn. destruct (Qeq_bool v 0) eqn:E; [|reflexivity].
    apply Qeq_bool_eq in E. contradiction. }
  assert (Hfirst : forall (b : option number) (v d : number),
            ~ v == 0 -> or_num_default (or_num (Some v) b) d = v).
  { intros b v d Hv. unfold or_num. cbn.
    destruct (Qeq_bool v 0) eqn:E;
      [apply Qeq_bool_eq in E; contradiction|].
    cbn. now rewrite E. }
  rewrite !normalize_x, !normalize_y. cbn [Raw.xCoordinate Raw.x
    Raw.yCoordinate Raw.y Raw.without_xCoordinate Raw.without_x
    Raw.without_yCoordinate Raw.without_y].
  split; [apply or_num_zero_l|].
  split; [apply or_num_zero_r|].
  split; [intros Ha Hb; now rewrite or_num_zero_l, or_num_zero_r|].
  split; [intros Ha; f_equal; now apply or_num_zero_l|].
  split; [intros Hb; f_equal; now apply or_num_zero_r|].
  split; [intros Ha Hb; f_equal; now rewrite or_num_zero_l, or_num_zero_r|].
  split; [intros v Ha -> Hv; now apply Hother|].
  split; [intros v _ -> Hv; now apply Hfirst|].
  split; [intros v Ha -> Hv; f_equal; now apply Hother|].
  intros v _ -> Hv. f_equal. now apply Hfirst.
Qed.

Lemma normalize_zero_is_missing_witness :
  Panel.x (Load.normalize 50 13 Sample.rawOrigin) = of_index 3 * 120 + 50 /\
  Panel.y (Load.normalize 50 13 Sample.rawOrigin)
    = of_index 1 * 120 + 50 + 50.
Proof.
  destruct (normalize_zero_is_missing 50 13 Sample.rawOrigin)
    as (_ & _ & Hx & _ & _ & Hy & _).
  split.
  - apply Hx; simpl; reflexivity.
  - apply Hy; simpl; reflexivity.
Defined.

(** As the specification words it, the property fails on the record
    [{xCoordinate: 0, x: 7, yCoordinate: 0, y: 9}] at index 13: the
    explicit coordinate is 0, yet the panel gets the other field of the
    pair, 7 for x and 9 (plus the offset) for y, and not the grid
    fallback. *)
Theorem normalize_zero_not_fallback :
  let p := Load.normalize 50 13 Sample.rawZeroOther in
  Raw.xCoordinate Sample.rawZeroOther = Some 0 /\
  Raw.yCoordinate Sample.rawZeroOther = Some 0 /\
  Panel.x p = 7 /\ ~ Panel.x p == of_index (13 mod 10) * 120 + 50 /\
  Panel.y p = 9 + 50 /\ ~ Panel.y p == of_index (13 / 10) * 120 + 50 + 50.
Proof.
  cbv zeta. repeat split; try reflexivity; vm_compute; discriminate.
Qed.

(** When the other field of the pair holds a number, that number is
    taken. *)
Lemma normalize_zero_then_other (yOffset : number) (index : nat) :
  Panel.x (Load.normalize yOffset index
             (Raw.mk (Some 0) None (Some 7) None None None None None None
                     None None None)) = 7.
Proof. reflexivity. Qed.

(** ** The colour scale *)

Lemma ratio_monotone (maxPower p1 p2 : number) :
  0 < maxPower -> p1 <= p2 ->
  Math_min (p1 / maxPower) 1 <= Math_min (p2 / maxPower) 1.
Proof.
  intros Hm Hle.
  assert (Hdiv : p1 / maxPower <= p2 / maxPower).
  { unfold Qdiv. apply Qmult_le_compat_r; [exact Hle|].
    apply Qlt_le_weak, Qinv_lt_0_compat, Hm. }
  destruct (Math_min_case (p1 / maxPower) 1) as [[-> ?]|[-> ?]],
           (Math_min_case (p2 / maxPower) 1) as [[-> ?]|[-> ?]]; lra.
Qed.

Lemma ratio_nonneg (maxPower p : number) :
  0 < maxPower -> 0 <= p -> 0 <= Math_min (p / maxPower) 1.
Proof.
  intros Hm Hp.
  assert (Hdiv : 0 <= p / maxPower).
  { unfold Qdiv. apply Qmult_le_0_compat; [exact Hp|].
    apply Qlt_le_weak, Qinv_lt_0_compat, Hm. }
  destruct (Math_min_case (p / maxPower) 1) as [[-> ?]|[-> ?]]; lra.
Qed.

Lemma getColorForPower_nonzero (maxPower power : number) :
  ~ maxPower == 0 -> ~ power == 0 ->
  getColorForPower maxPower power =
  Rgb 0 (Qfloor (30 + (255 - 30) * Math_min (power / maxPower) 1)) 0.
Proof.
  intros Hm Hp. unfold getColorForPower.
  destruct (Qeq_bool maxPower 0) eqn:Em;
    [apply Qeq_bool_eq in Em; contradiction|].
  destruct (Qeq_bool power 0) eqn:Ep;
    [apply Qeq_bool_eq in Ep; contradiction|].
  reflexivity.
Qed.

(** C6.  With [maxPower > 0]: power 0 gives black; power [maxPower] gives
    the maximum green value, green 255 with red and blue 0 (the scale
    [floor(30 + (255 - 30) * min(power / maxPower, 1))] at ratio 1); and
    for 0 <= p1 <= p2 the green channel at p2 is at least that at p1. *)
Theorem getColorForPower_scale (maxPower : number) :
  0 < maxPower ->
  getColorForPower maxPower 0 = Black /\
  getColorForPower maxPower maxPower = Rgb 0 255 0 /\
  (forall p1 p2 : number, 0 <= p1 -> p1 <= p2 ->
     (green (getColorForPower maxPower p1)
        <= green (getColorForPower maxPower p2))%Z).
Proof.
  intros Hm. assert (Hne : ~ maxPower == 0) by lra.
  split; [|split].
  - unfold getColorForPower. now destruct (Qeq_bool maxPower 0).
  - rewrite getColorForPower_nonzero by assumption. f_equal.
    transitivity (Qfloor 255); [|reflexivity]. apply Qfloor_comp.
    destruct (Math_min_case (maxPower / maxPower) 1) as [[-> _]|[-> _]];
      [field; exact Hne | lra].
  - intros p1 p2 H1 H12.
    assert (Hfloor : forall p, 0 <= p ->
              (0 <= Qfloor (30 + (255 - 30) * Math_min (p / maxPower) 1)%Q)%Z).
    { intros p Hp. change 0%Z with (Qfloor 0). apply Qfloor_resp_le.
      pose proof (ratio_nonneg maxPower p Hm Hp). lra. }
    destruct (Qeq_dec p2 0) as [E2|E2].
    + assert (E1 : p1 == 0) by lra.
      unfold getColorForPower.
      rewrite (Qeq_eq_bool _ _ E1), (Qeq_eq_bool _ _ E2).
      now destruct (Qeq_bool maxPower 0).
    + rewrite (getColorForPower_nonzero maxPower p2) by assumption.
      destruct (Qeq_dec p1 0) as [E1|E1].
      * unfold getColorForPower. rewrite (Qeq_eq_bool _ _ E1).
        destruct (Qeq_bool maxPower 0); cbn [green]; apply Hfloor; lra.
      * rewrite (getColorForPower_nonzero maxPower p1) by assumption.
        cbn [green]. apply Qfloor_resp_le.
        pose proof (ratio_monotone maxPower p1 p2 Hm H12). lra.
Qed.

Lemma getColorForPower_scale_witness :
  getColorForPower 400 0 = Black /\
  getColorForPower 400 400 = Rgb 0 255 0 /\
  (green (getColorForPower 400%Q 100%Q)
     <= green (getColorForPower 400%Q 200%Q))%Z.
Proof.
  destruct (getColorForPower_scale 400) as (H0 & Hmax & Hmono);
    [reflexivity|].
  split; [exact H0|]. split; [exact Hmax|].
  apply Hmono; discriminate.
Defined.

(** ** The rotation angle *)

(** For a non-negative angle the remainder is the angle reduced into
    [[0, 360)]. *)
Lemma js_rem_nonneg_range (a : Q) :
  0 <= a -> 0 <= js_rem a 360 /\ js_rem a 360 < 360.
Proof.
  intros Ha. unfold js_rem, trunc.
  assert (Hq : 0 <= a / 360).
  { unfold Qdiv. apply Qmult_le_0_compat; [exact Ha | discriminate]. }
  apply Qle_bool_iff in Hq as Hb. rewrite Hb.
  pose proof (Qfloor_le (a / 360)) as Hlo.
  pose proof (Qlt_floor (a / 360)) as Hhi.
  rewrite inject_Z_plus in Hhi. change (inject_Z 1) with 1 in Hhi.
  assert (Hmul : a == 360 * (a / 360)) by (field; discriminate).
  split; lra.
Qed.

(** C7.  On the record [{planeRotation: -90}] the normalizer stores the
    rotation -90, which is outside [[0, 360)]: the remainder operator
    keeps the sign of the dividend.  The angle then matches none of
    0, 90, 180, 270, and the panel gets the square 120 x 120. *)
Theorem normalize_rotation_negative (yOffset : number) (index : nat) :
  let p := Load.normalize yOffset index Sample.rawTilted in
  Panel.planeRotation p = -90 /\
  ~ (0 <= Panel.planeRotation p /\ Panel.planeRotation p < 360) /\
  Panel.width p = 120 /\ Panel.height p = 120.
Proof.
  assert (Hrot : Panel.planeRotation
                   (Load.normalize yOffset index Sample.rawTilted) = -90).
  { rewrite normalize_planeRotation. vm_compute. reflexivity. }
  cbv zeta. rewrite Hrot.
  split; [reflexivity|]. split; [intros [H _]; now apply H|].
  split; vm_compute; reflexivity.
Qed.

(** ** Positions stay in the non-negative quadrant *)

Lemma handleMouseUp_panels (m : Monitor) : panels (handleMouseUp m) = panels m.
Proof. unfold handleMouseUp. now destruct (isDragging m). Qed.

(** While a drag is in progress, the step rewrites the entry of the
    dragged panel and nothing else. *)
Lemma handleMouseMove_dragging (rect : ClientRect) (e : MouseEvent)
    (m : Monitor) (d : nat) (dp : Panel.t) :
  isDragging m = true -> editPlacementEnabled m = true ->
  dragPanel m = Some d -> panels m !! d = Some dp ->
  panels (handleMouseMove rect e m) =
  <[d := Panel.set_y
           (Panel.set_x dp
              (Math_max 0
                 (Drag.loop dp d (Drag.candidate rect e m) 0 (panels m)).1))
           (Math_max 0
              (Drag.loop dp d (Drag.candidate rect e m) 0 (panels m)).2)]>
    (panels m).
Proof.
  intros Hd He Hp Hl. unfold handleMouseMove.
  rewrite Hd, He, Hp, Hl. simpl.
  now destruct (Drag.loop dp d (Drag.candidate rect e m) 0 (panels m)).
Qed.

(** In every case the step leaves the array alone or rewrites one entry,
    giving it clamped coordinates. *)
Lemma handleMouseMove_cases (rect : ClientRect) (e : MouseEvent)
    (m : Monitor) :
  panels (handleMouseMove rect e m) = panels m \/
  exists (d : nat) (dp : Panel.t) (x y : number),
    panels m !! d = Some dp /\
    panels (handleMouseMove rect e m) =
    <[d := Panel.set_y (Panel.set_x dp (Math_max 0 x)) (Math_max 0 y)]>
      (panels m).
Proof.
  unfold handleMouseMove.
  destruct (isDragging m && negb (editPlacementEnabled m));
    [left; apply handleMouseUp_panels|].
  destruct (isDragging m); [|now left].
  destruct (dragPanel m) as [d|]; [|now left].
  destruct (panels m !! d) as [dp|] eqn:El; [|now left].
  destruct (Drag.loop dp d (Drag.candidate rect e m) 0 (panels m)) as [x y].
  right. exists d, dp, x, y. split; [exact El | reflexivity].
Qed.

(** Panel by panel: a coordinate that is not negative is not made
    negative by a push of the resolver. *)
Lemma separate_x_nonneg_each (p1 p2 : Panel.t) :
  panelsOverlap p1 p2 = true ->
  (0 <= Panel.x p1 -> 0 <= Panel.x (Resolve.separate p1 p2).1) /\
  (0 <= Panel.x p2 -> 0 <= Panel.x (Resolve.separate p1 p2).2).
Proof.
  intros Ho. apply panelsOverlap_true in Ho. simpl in Ho.
  destruct Ho as (Ha & Hb & Hc & Hd).
  unfold Resolve.separate.
  match goal with |- context [Qlt_bool ?u ?v] => destruct (Qlt_bool u v) end.
  - pose proof (overlap_moveAmount_pos
                  (Panel.x p1 + Panel.width p1 - Panel.x p2)
                  (Panel.x p2 + Panel.width p2 - Panel.x p1)) as Hm.
    destruct (Qlt_bool (Panel.x p1) (Panel.x p2)); simpl;
      split; intros H; try apply Math_max_l; lra.
  - destruct (Qlt_bool (Panel.y p1) (Panel.y p2)); simpl;
      split; intros H; exact H.
Qed.

Lemma separate_y_nonneg_each (p1 p2 : Panel.t) :
  panelsOverlap p1 p2 = true ->
  (0 <= Panel.y p1 -> 0 <= Panel.y (Resolve.separate p1 p2).1) /\
  (0 <= Panel.y p2 -> 0 <= Panel.y (Resolve.separate p1 p2).2).
Proof.
  intros Ho. apply panelsOverlap_true in Ho. simpl in Ho.
  destruct Ho as (Ha & Hb & Hc & Hd).
  unfold Resolve.separate.
  match goal with |- context [Qlt_bool ?u ?v] => destruct (Qlt_bool u v) end.
  - destruct (Qlt_bool (Panel.x p1) (Panel.x p2)); simpl;
      split; intros H; exact H.
  - pose proof (overlap_moveAmount_pos
                  (Panel.y p1 + Panel.height p1 - Panel.y p2)
                  (Panel.y p2 + Panel.height p2 - Panel.y p1)) as Hm.
    destruct (Qlt_bool (Panel.y p1) (Panel.y p2)); simpl;
      split; intros H; try apply Math_max_l; lra.
Qed.

Lemma pairStep_coord_nonneg_at (c : Panel.t -> number) (k : nat) :
  (forall p1 p2 : Panel.t, panelsOverlap p1 p2 = true ->
     (0 <= c p1 -> 0 <= c (Resolve.separate p1 p2).1) /\
     (0 <= c p2 -> 0 <= c (Resolve.separate p1 p2).2)) ->
  forall (i j : nat) (st : Resolve.state),
    (forall p : Panel.t, fst st !! k = Some p -> 0 <= c p) ->
    forall p : Panel.t,
      fst (Resolve.pairStep i st j) !! k = Some p -> 0 <= c p.
Proof.
  intros Hsep i j st H. unfold Resolve.pairStep.
  destruct (fst st !! i) as [p1|] eqn:Ei; [|exact H].
  destruct (fst st !! j) as [p2|] eqn:Ej; [|exact H].
  destruct (panelsOverlap p1 p2) eqn:Eo; [|exact H].
  destruct (Hsep p1 p2 Eo) as [H1 H2].
  destruct (Resolve.separate p1 p2) as [q1 q2]. simpl in *.
  intros p Hp.
  apply list_lookup_insert_Some in Hp as [(<- & <- & _)|(Hjk & Hp)].
  - apply H2, H, Ej.
  - apply list_lookup_insert_Some in Hp as [(<- & <- & _)|(Hik & Hp)].
    + apply H1, H, Ei.
    + now apply H.
Qed.

Lemma resolveOverlaps_coord_nonneg_at (c : Panel.t -> number) :
  (forall p1 p2 : Panel.t, panelsOverlap p1 p2 = true ->
     (0 <= c p1 -> 0 <= c (Resolve.separate p1 p2).1) /\
     (0 <= c p2 -> 0 <= c (Resolve.separate p1 p2).2)) ->
  forall (ps : list Panel.t) (k : nat) (p p' : Panel.t),
    ps !! k = Some p -> resolveOverlaps ps !! k = Some p' ->
    0 <= c p -> 0 <= c p'.
Proof.
  intros Hsep ps k p p' Hp Hp' Hc.
  apply (resolveOverlaps_Inv
           (fun l => forall q : Panel.t, l !! k = Some q -> 0 <= c q)
           (pairStep_coord_nonneg_at c k Hsep) ps); [|exact Hp'].
  intros q Hq. congruence.
Qed.

Lemma handleMouseMove_coord_at (rect : ClientRect) (e : MouseEvent)
    (m : Monitor) (k : nat) (p p' : Panel.t) :
  panels m !! k = Some p ->
  panels (handleMouseMove rect e m) !! k = Some p' ->
  p' = p \/ (0 <= Panel.x p' /\ 0 <= Panel.y p').
Proof.
  intros Hp Hp'.
  destruct (handleMouseMove_cases rect e m)
    as [E|(d & dp & x & y & _ & E)]; rewrite E in Hp'.
  - left. congruence.
  - apply list_lookup_insert_Some in Hp' as [(_ & <- & _)|(_ & Hp')].
    + right. simpl. split; apply Math_max_l.
    + left. congruence.
Qed.

Lemma localPanel_coordinates (index : nat) (r : Raw.t) :
  (forall v, Raw.x r = Some v -> Panel.x (Load.localPanel index r) == v) /\
  (forall v, Raw.y r = Some v -> Panel.y (Load.localPanel index r) == v) /\
  (Raw.x r = None -> Panel.x (Load.localPanel index r) = 0) /\
  (Raw.y r = None -> Panel.y (Load.localPanel index r) = 0).
Proof.
  assert (H : forall v : number, or_num_default (Some v) 0 == v).
  { intros v. simpl. destruct (Qeq_bool v 0) eqn:E; [|reflexivity].
    apply Qeq_bool_eq in E. now rewrite E. }
  unfold Load.localPanel. cbn [Panel.x Panel.y].
  split; [|split; [|split]].
  - intros v ->. apply H.
  - intros v ->. apply H.
  - now intros ->.
  - now intros ->.
Qed.

(** C3 (as the code has it).  Record by record, normalization of an API
    payload gives the panel y >= 0 and stores an explicit x other than 0
    as it is, so that x >= 0 unless that explicit x is negative.  A panel
    of a local layout has the x and y its record gives, negative ones
    included, and 0 for a missing one.  The synthesized default panels
    have x >= 0 and y >= 0.  From there on the overlap resolver and the
    drag step never make a coordinate negative: a panel whose x (y) is
    >= 0 before has x (y) >= 0 after, and the dragged panel is always left
    with x >= 0 and y >= 0. *)
Theorem coordinates_nonneg :
  (forall (arr : list Raw.t) (i : nat) (r : Raw.t) (p : Panel.t),
     arr !! i = Some r -> Load.fromApi arr !! i = Some p ->
     0 <= Panel.y p /\
     (forall v, or_num (Raw.xCoordinate r) (Raw.x r) = Some v -> ~ v == 0 ->
        Panel.x p = v) /\
     ((forall v, or_num (Raw.xCoordinate r) (Raw.x r) = Some v -> 0 <= v) ->
      0 <= Panel.x p)) /\
  (forall (localLayout : list Raw.t) (i : nat) (r : Raw.t) (p : Panel.t),
     localLayout !! i = Some r -> Load.fromLocal localLayout !! i = Some p ->
     (forall v, Raw.x r = Some v -> Panel.x p == v) /\
     (forall v, Raw.y r = Some v -> Panel.y p == v) /\
     (Raw.x r = None -> Panel.x p = 0) /\
     (Raw.y r = None -> Panel.y p = 0)) /\
  Forall (fun p => 0 <= Panel.x p /\ 0 <= Panel.y p) createDefaultPanels /\
  (forall (ps : list Panel.t) (k : nat) (p p' : Panel.t),
     ps !! k = Some p -> resolveOverlaps ps !! k = Some p' ->
     (0 <= Panel.x p -> 0 <= Panel.x p') /\
     (0 <= Panel.y p -> 0 <= Panel.y p')) /\
  (forall (rect : ClientRect) (e : MouseEvent) (m : Monitor) (k : nat)
          (p p' : Panel.t),
     panels m !! k = Some p ->
     panels (handleMouseMove rect e m) !! k = Some p' ->
     (0 <= Panel.x p -> 0 <= Panel.x p') /\
     (0 <= Panel.y p -> 0 <= Panel.y p') /\
     (isDragging m = true -> editPlacementEnabled m = true ->
      dragPanel m = Some k -> 0 <= Panel.x p' /\ 0 <= Panel.y p')).
Proof.
  split; [|split; [|split; [|split]]].
  - intros arr i r p Hr Hp. unfold Load.fromApi in Hp.
    rewrite list_lookup_imap, Hr in Hp. injection Hp as <-.
    split; [|split].
    + pose proof (normalize_y_ge_50 arr i r
                    (list_elem_of_lookup_2 _ _ _ Hr)). lra.
    + intros v Hv Hne. rewrite normalize_x, Hv. simpl.
      destruct (Qeq_bool v 0) eqn:E; [|reflexivity].
      apply Qeq_bool_eq in E. contradiction.
    + apply normalize_x_nonneg.
  - intros l i r p Hr Hp. unfold Load.fromLocal in Hp.
    rewrite list_lookup_imap, Hr in Hp. injection Hp as <-.
    apply localPanel_coordinates.
  - repeat constructor; discriminate.
  - intros ps k p p' Hp Hp'. split; intros H.
    + exact (resolveOverlaps_coord_nonneg_at Panel.x separate_x_nonneg_each
               ps k p p' Hp Hp' H).
    + exact (resolveOverlaps_coord_nonneg_at Panel.y separate_y_nonneg_each
               ps k p p' Hp Hp' H).
  - intros rect e m k p p' Hp Hp'.
    split; [|split].
    + intros H. destruct (handleMouseMove_coord_at rect e m k p p' Hp Hp')
        as [->|[Hx _]]; assumption.
    + intros H. destruct (handleMouseMove_coord_at rect e m k p p' Hp Hp')
        as [->|[_ Hy]]; assumption.
    + intros Hd He Hk. revert Hp'.
      rewrite (handleMouseMove_dragging rect e m k p Hd He Hk Hp).
      rewrite list_lookup_insert_eq by (eapply lookup_lt_Some; exact Hp).
      intros [= <-]. simpl. split; apply Math_max_l.
Qed.

Lemma coordinates_nonneg_witness :
  0 <= Panel.y (Load.normalize (Load.yOffset [Sample.rawA1]) 0 Sample.rawA1) /\
  Panel.x (Load.normalize (Load.yOffset [Sample.rawA1]) 0 Sample.rawA1)
    = -100 /\
  Panel.x (Load.localPanel 0 Sample.rawLocalNegative) == -30 /\
  (exists p' : Panel.t,
     resolveOverlaps Sample.twoOverlapping !! 1%nat = Some p' /\
     0 <= Panel.x p') /\
  (exists p' : Panel.t,
     panels (handleMouseMove Sample.canvas (mkMouseEvent 85 0)
               Sample.dragging) !! 2%nat = Some p' /\
     0 <= Panel.x p' /\ 0 <= Panel.y p').
Proof.
  destruct coordinates_nonneg as (Hapi & Hloc & _ & Hres & Hdrag).
  destruct (Hapi [Sample.rawA1] 0%nat Sample.rawA1
              (Load.normalize (Load.yOffset [Sample.rawA1]) 0 Sample.rawA1)
              eq_refl eq_refl) as (Hy & Hx & _).
  destruct (Hloc [Sample.rawLocalNegative] 0%nat Sample.rawLocalNegative
              (Load.localPanel 0 Sample.rawLocalNegative) eq_refl eq_refl)
    as (Hlx & _).
  split; [exact Hy|].
  split; [apply Hx; [reflexivity | discriminate]|].
  split; [apply Hlx; reflexivity|].
  split.
  - destruct (resolveOverlaps Sample.twoOverlapping !! 1%nat) as [p'|] eqn:E;
      [|vm_compute in E; discriminate].
    exists p'. split; [reflexivity|].
    destruct (Hres Sample.twoOverlapping 1%nat
                (Sample.plain "b" 10 0 80 120) p' eq_refl E) as [H _].
    apply H. discriminate.
  - destruct (panels (handleMouseMove Sample.canvas (mkMouseEvent 85 0)
                        Sample.dragging) !! 2%nat) as [p'|] eqn:E;
      [|vm_compute in E; discriminate].
    exists p'. split; [reflexivity|].
    destruct (Hdrag Sample.canvas (mkMouseEvent 85 0) Sample.dragging 2%nat
                (Sample.plain "d" 300 300 80 120) p' eq_refl E)
      as (_ & _ & H).
    apply H; reflexivity.
Defined.

(** As the specification words it, the property fails on the scenario
    payload: the explicit [xCoordinate: -100] is kept by normalization and
    by the resolver. *)
Lemma coordinates_negative_x :
  exists p : Panel.t,
    Load.fromApi (Load.panelsArray Sample.payloadA1) = [p] /\
    panels (loadPanelLayout None (Json Sample.payloadA1) Sample.idle) = [p] /\
    Panel.x p = -100 /\ ~ 0 <= Panel.x p.
Proof.
  eexists. split; [vm_compute; reflexivity|].
  split; [vm_compute; reflexivity|].
  split; [reflexivity|]. simpl. intros H. now apply H.
Qed.

(** ** One drag step and overlaps *)

(** What one step guarantees about overlaps, given that the clamp at the
    end changes nothing. *)
Lemma drag_step_clear (rect : ClientRect) (e : MouseEvent)
    (m : Monitor) (d : nat) (dp : Panel.t) :
  isDragging m = true -> editPlacementEnabled m = true ->
  dragPanel m = Some d -> panels m !! d = Some dp ->
  (forall (i j : nat) (p q : Panel.t),
     i <> j -> i <> d -> j <> d ->
     panels m !! i = Some p -> panels m !! j = Some q ->
     panelsOverlap p q = false) ->
  0 <= (Drag.loop dp d (Drag.candidate rect e m) 0 (panels m)).1 ->
  0 <= (Drag.loop dp d (Drag.candidate rect e m) 0 (panels m)).2 ->
  forall (i j : nat) (p q : Panel.t),
    i <> j ->
    panels (handleMouseMove rect e m) !! i = Some p ->
    panels (handleMouseMove rect e m) !! j = Some q ->
    (i = d ->
     fromLastPush (lastPush dp d (Drag.candidate rect e m) 0 (panels m)) j) ->
    (j = d ->
     fromLastPush (lastPush dp d (Drag.candidate rect e m) 0 (panels m)) i) ->
    panelsOverlap p q = false.
Proof.
  intros Hd He Hp Hl Hothers Hx Hy.
  rewrite (handleMouseMove_dragging rect e m d dp Hd He Hp Hl).
  rewrite (Math_max_0_id _ Hx), (Math_max_0_id _ Hy).
  set (pos := Drag.loop dp d (Drag.candidate rect e m) 0 (panels m)).
  set (dp' := Panel.set_y (Panel.set_x dp pos.1) pos.2).
  assert (Hrect : rect_of dp' = dragRect dp pos) by reflexivity.
  assert (Hlt : (d < length (panels m))%nat)
    by (eapply lookup_lt_Some; exact Hl).
  destruct (loop_lastPush dp d (panels m) 0 (Drag.candidate rect e m))
    as (_ & _ & Hclear).
  fold pos in Hclear.
  assert (Hdrag : forall (j : nat) (q : Panel.t),
            j <> d -> panels m !! j = Some q ->
            fromLastPush
              (lastPush dp d (Drag.candidate rect e m) 0 (panels m)) j ->
            panelsOverlap dp' q = false).
  { intros j q Hne Hq Hfrom. rewrite Hrect.
    apply (Hclear j q Hq); simpl; assumption. }
  intros i j p q Hne Hi Hj Hfi Hfj.
  destruct (decide (i = d)) as [->|Hid].
  - rewrite list_lookup_insert_eq in Hi by exact Hlt. injection Hi as <-.
    rewrite list_lookup_insert_ne in Hj by congruence.
    apply (Hdrag j q); [congruence | exact Hj | now apply Hfi].
  - rewrite list_lookup_insert_ne in Hi by congruence.
    destruct (decide (j = d)) as [->|Hjd].
    + rewrite list_lookup_insert_eq in Hj by exact Hlt. injection Hj as <-.
      rewrite panelsOverlap_sym.
      apply (Hdrag i p); [exact Hid | exact Hi | now apply Hfj].
    + rewrite list_lookup_insert_ne in Hj by congruence.
      now apply (Hothers i j).
Qed.

(** When nothing in the array is hit at the starting position, the loop
    pushes nothing out. *)
Lemma lastPush_None (dp : Panel.t) (d : nat) (pos : number * number)
    (ps : list Panel.t) :
  forall k0 : nat,
    (forall (j : nat) (q : Panel.t),
       ps !! j = Some q -> hits dp d pos (k0 + j) q = false) ->
    lastPush dp d pos k0 ps = None.
Proof.
  induction ps as [|panel ps IH]; intros k0 H; simpl; [reflexivity|].
  assert (Hhd : hits dp d pos k0 panel = false).
  { specialize (H 0%nat panel eq_refl).
    now replace (k0 + 0)%nat with k0 in H by lia. }
  rewrite (adjust_not_hit _ _ _ _ _ Hhd), Hhd.
  rewrite IH; [reflexivity|]. intros j q Hq.
  replace (S k0 + j)%nat with (k0 + S j)%nat by lia. now apply (H (S j)).
Qed.

(** A drop on a free spot: when the clamped candidate overlaps no other
    panel, the step leaves no overlapping pair. *)
Lemma drag_step_free_candidate (rect : ClientRect) (e : MouseEvent)
    (m : Monitor) (d : nat) (dp : Panel.t) :
  isDragging m = true -> editPlacementEnabled m = true ->
  dragPanel m = Some d -> panels m !! d = Some dp ->
  (forall (i j : nat) (p q : Panel.t),
     i <> j -> i <> d -> j <> d ->
     panels m !! i = Some p -> panels m !! j = Some q ->
     panelsOverlap p q = false) ->
  (forall (j : nat) (q : Panel.t),
     j <> d -> panels m !! j = Some q ->
     panelsOverlap (dragRect dp (Drag.candidate rect e m)) q = false) ->
  NoOverlap (panels (handleMouseMove rect e m)).
Proof.
  intros Hd He Hp Hl Hothers Hfree.
  assert (Hnone : lastPush dp d (Drag.candidate rect e m) 0 (panels m) = None).
  { apply lastPush_None. intros j q Hq. simpl. unfold hits.
    destruct (decide (j = d)) as [->|Hne].
    - now rewrite Nat.eqb_refl.
    - rewrite (Hfree j q Hne Hq). apply andb_false_r. }
  destruct (loop_lastPush dp d (panels m) 0 (Drag.candidate rect e m))
    as (Hpos & _ & _).
  specialize (Hpos Hnone).
  intros i j p q Hne Hi Hj.
  apply (drag_step_clear rect e m d dp Hd He Hp Hl Hothers) with i j;
    try assumption; try (rewrite Hnone; intros _; exact I);
    rewrite Hpos; unfold Drag.candidate; simpl; apply Math_max_l.
Qed.

(** C2 (as the code has it).  During a drag, when the other panels do not
    overlap one another and the final clamp leaves the position computed
    by the loop unchanged (it is already >= 0), then after the step the
    dragged panel overlaps neither the last panel it was pushed out of nor
    any panel evaluated after that one, and no two other panels overlap.
    When the loop pushed nothing out, no two panels overlap at all.
    Panels evaluated before the last push-out are not looked at again. *)
Theorem drag_step_clear_from_last_push (rect : ClientRect) (e : MouseEvent)
    (m : Monitor) (d : nat) (dp : Panel.t) :
  isDragging m = true -> editPlacementEnabled m = true ->
  dragPanel m = Some d -> panels m !! d = Some dp ->
  (forall (i j : nat) (p q : Panel.t),
     i <> j -> i <> d -> j <> d ->
     panels m !! i = Some p -> panels m !! j = Some q ->
     panelsOverlap p q = false) ->
  0 <= (Drag.loop dp d (Drag.candidate rect e m) 0 (panels m)).1 ->
  0 <= (Drag.loop dp d (Drag.candidate rect e m) 0 (panels m)).2 ->
  forall (i j : nat) (p q : Panel.t),
    i <> j ->
    panels (handleMouseMove rect e m) !! i = Some p ->
    panels (handleMouseMove rect e m) !! j = Some q ->
    (i = d ->
     fromLastPush (lastPush dp d (Drag.candidate rect e m) 0 (panels m)) j) ->
    (j = d ->
     fromLastPush (lastPush dp d (Drag.candidate rect e m) 0 (panels m)) i) ->
    panelsOverlap p q = false.
Proof. exact (drag_step_clear rect e m d dp). Qed.

(** The panel at index 2 is dragged to (165, 0), is pushed out of the
    panel at index 1 to (175, 0), and is clear of it afterwards. *)
Lemma drag_step_clear_witness :
  exists p q : Panel.t,
    panels (handleMouseMove Sample.canvas (mkMouseEvent 165 0)
              Sample.dragging) !! 2%nat = Some p /\
    panels (handleMouseMove Sample.canvas (mkMouseEvent 165 0)
              Sample.dragging) !! 1%nat = Some q /\
    Panel.x p = 175 /\ Panel.y p = 0 /\
    panelsOverlap p q = false.
Proof.
  eexists. eexists.
  split; [vm_compute; reflexivity|]. split; [vm_compute; reflexivity|].
  split; [reflexivity|]. split; [reflexivity|].
  apply (drag_step_clear_from_last_push Sample.canvas (mkMouseEvent 165 0)
           Sample.dragging 2 (Sample.plain "d" 300 300 80 120))
    with (i := 2%nat) (j := 1%nat).
  - reflexivity.
  - reflexivity.
  - reflexivity.
  - reflexivity.
  - intros [|[|[|i]]] [|[|[|j]]] p q Hne Hi Hj Hp Hq; try congruence;
      try discriminate;
      simpl in Hp, Hq; injection Hp as <-; injection Hq as <-;
      vm_compute; reflexivity.
  - vm_compute. discriminate.
  - vm_compute. discriminate.
  - discriminate.
  - vm_compute. reflexivity.
  - vm_compute. reflexivity.
  - intros _. vm_compute. lia.
  - discriminate.
Defined.

(** As the specification words it, the property fails: with the panels
    "q" at (0, 0) and "p" at (90, 0) apart from each other, the third
    panel dragged to (85, 0)
    overlaps only "p", is pushed out of it to (5, 0), and there overlaps
    "q", which the loop had already passed.  No clamp is involved. *)
Lemma drag_step_pushed_into_neighbour :
  (forall (i j : nat) (p q : Panel.t),
     i <> j -> i <> 2%nat -> j <> 2%nat ->
     panels Sample.dragging !! i = Some p ->
     panels Sample.dragging !! j = Some q ->
     panelsOverlap p q = false) /\
  Drag.candidate Sample.canvas (mkMouseEvent 85 0) Sample.dragging = (85, 0) /\
  exists p q : Panel.t,
    panels (handleMouseMove Sample.canvas (mkMouseEvent 85 0)
              Sample.dragging) !! 2%nat = Some p /\
    panels (handleMouseMove Sample.canvas (mkMouseEvent 85 0)
              Sample.dragging) !! 0%nat = Some q /\
    Panel.x p = 5 /\ Panel.y p = 0 /\
    panelsOverlap p q = true /\
    ~ NoOverlap (panels (handleMouseMove Sample.canvas (mkMouseEvent 85 0)
                           Sample.dragging)).
Proof.
  split; [|split].
  - intros [|[|[|i]]] [|[|[|j]]] p q Hne Hi Hj Hp Hq; try congruence;
      try discriminate;
      simpl in Hp, Hq; injection Hp as <-; injection Hq as <-;
      vm_compute; reflexivity.
  - vm_compute. reflexivity.
  - eexists. eexists.
    split; [vm_compute; reflexivity|]. split; [vm_compute; reflexivity|].
    split; [reflexivity|]. split; [reflexivity|].
    split; [vm_compute; reflexivity|].
    intros Hno.
    specialize (Hno 2%nat 0%nat _ _ ltac:(discriminate) eq_refl eq_refl).
    vm_compute in Hno. discriminate.
Qed.

(** The final clamp can also undo a push-out: the panel at index 0 dragged
    to (60, 0) is pushed out of the panel at (70, 0) to x = -15, is
    clamped back to x = 0, and overlaps it again. *)
Lemma drag_step_clamped_into_neighbour :
  let m := mkMonitor [Sample.plain "d" 300 300 80 120;
                      Sample.plain "p" 70 0 80 120]
                     400 true (Some 0%nat) (0, 0) true in
  Drag.loop (Sample.plain "d" 300 300 80 120) 0
            (Drag.candidate Sample.canvas (mkMouseEvent 60 0) m) 0 (panels m)
    = (-15, 0) /\
  panels (handleMouseMove Sample.canvas (mkMouseEvent 60 0) m)
    = [Sample.plain "d" 0 0 80 120; Sample.plain "p" 70 0 80 120] /\
  panelsOverlap (Sample.plain "d" 0 0 80 120) (Sample.plain "p" 70 0 80 120)
    = true.
Proof.
  cbv zeta. split; [vm_compute; reflexivity|].
  split; vm_compute; reflexivity.
Qed.

(** ** Export and reload *)

Lemma or_num_default_same (v d : number) :
  d == 0 \/ truthy_num (Some v) = true -> or_num_default (Some v) d == v.
Proof.
  simpl. destruct (Qeq_bool v 0) eqn:E.
  - intros [H|H]; [|discriminate]. apply Qeq_bool_eq in E.
    now rewrite H, E.
  - reflexivity.
Qed.

Lemma localPanel_exportRecord (index : nat) (p : Panel.t) :
  Truthy p -> samePanel p (Load.localPanel index (exportRecord p)).
Proof.
  intros (Hid & Hw & Hh). unfold samePanel, Load.localPanel, exportRecord.
  cbn [Panel.id Panel.x Panel.y Panel.width Panel.height Panel.planeRotation
       Raw.id Raw.x Raw.y Raw.width Raw.height Raw.planeRotation
       Raw.inverterSerialNumber].
  split.
  - unfold or_str. rewrite Hid. simpl in *.
    now destruct (String.eqb (Panel.id p) "").
  - repeat split; apply or_num_default_same;
      (left; reflexivity) || (right; assumption).
Qed.

Lemma fromLocal_export (ps : list Panel.t) :
  Forall Truthy ps ->
  Forall2 samePanel ps (Load.fromLocal (map exportRecord ps)).
Proof.
  intros H. apply Forall2_same_length_lookup. split.
  - unfold Load.fromLocal. now rewrite length_imap, length_map.
  - intros i p p' Hp Hp'. unfold Load.fromLocal in Hp'.
    rewrite list_lookup_imap, list_lookup_fmap, Hp in Hp'.
    injection Hp' as <-. apply localPanel_exportRecord.
    exact (proj1 (Forall_lookup _ _) H i p Hp).
Qed.

Lemma samePanel_overlap (p q p' q' : Panel.t) :
  samePanel p p' -> samePanel q q' ->
  panelsOverlap p' q' = panelsOverlap p q.
Proof.
  intros (_ & Hx & Hy & Hw & Hh & _) (_ & Hx' & Hy' & Hw' & Hh' & _).
  unfold panelsOverlap. simpl.
  now rewrite Hx, Hy, Hw, Hh, Hx', Hy', Hw', Hh'.
Qed.

Lemma samePanel_NoOverlap (ps ps' : list Panel.t) :
  Forall2 samePanel ps ps' -> NoOverlap ps -> NoOverlap ps'.
Proof.
  intros H Hno i j p' q' Hne Hp' Hq'.
  destruct (Forall2_lookup_r _ _ _ _ _ H Hp') as (p & Hp & Hsp).
  destruct (Forall2_lookup_r _ _ _ _ _ H Hq') as (q & Hq & Hsq).
  rewrite (samePanel_overlap p q p' q' Hsp Hsq). now apply (Hno i j).
Qed.

(** C5 (as the code has it).  For every panel set in which no two panels
    overlap (ids, widths and heights being truthy, as they always are),
    exporting it and loading the exported records as the static local
    layout, [resolveOverlaps] included, gives back the same set: the same
    ids, x/y positions, widths, heights and planeRotation, panel by
    panel. *)
Theorem export_reload_roundtrip (resp : Response) (m : Monitor) :
  panels m <> [] ->
  Forall Truthy (panels m) ->
  NoOverlap (panels m) ->
  exists l : list Raw.t,
    exportPanelLayout m = Some l /\
    Forall2 samePanel (panels m) (panels (loadPanelLayout (Some l) resp m)).
Proof.
  intros Hne Htr Hno. exists (map exportRecord (panels m)). split.
  - unfold exportPanelLayout. now destruct (panels m).
  - pose proof (fromLocal_export (panels m) Htr) as Hsame.
    pose proof (samePanel_NoOverlap _ _ Hsame Hno) as Hno'.
    assert (Htry : Load.tryBlock (Some (map exportRecord (panels m))) resp
                   = Some (Load.fromLocal (map exportRecord (panels m)))).
    { unfold Load.tryBlock. now destruct (panels m). }
    assert (Hlen : (length (Load.fromLocal (map exportRecord (panels m)))
                    =? 0)%nat = false).
    { apply Nat.eqb_neq. unfold Load.fromLocal.
      rewrite length_imap, length_map. now destruct (panels m). }
    unfold loadPanelLayout. rewrite Htry, Hlen. cbn [panels].
    unfold resolveOverlaps. rewrite (resolveOverlaps_NoOverlap _ Hno').
    exact Hsame.
Qed.

Lemma export_reload_roundtrip_witness :
  exists l : list Raw.t,
    exportPanelLayout
      (mkMonitor createDefaultPanels 400 false None (0, 0) false) = Some l /\
    Forall2 samePanel createDefaultPanels
      (panels (loadPanelLayout (Some l) NetworkError
                 (mkMonitor createDefaultPanels 400 false None (0, 0) false))).
Proof.
  apply (export_reload_roundtrip NetworkError
           (mkMonitor createDefaultPanels 400 false None (0, 0) false)).
  - discriminate.
  - repeat constructor.
  - apply pairwise_clear_NoOverlap. vm_compute. reflexivity.
Defined.

(** As the specification words it, the property fails on a set with an
    overlapping pair, such as the one a drag step leaves in
    [drag_step_clamped_into_neighbour]:
    after the reload the resolver has moved "p" from x = 70 to x = 80. *)
Lemma export_reload_moves_overlapping :
  let m := mkMonitor [Sample.plain "d" 0 0 80 120;
                      Sample.plain "p" 70 0 80 120]
                     400 false None (0, 0) true in
  Forall Truthy (panels m) /\
  exists (l : list Raw.t) (d' p' : Panel.t),
    exportPanelLayout m = Some l /\
    panels (loadPanelLayout (Some l) NetworkError m) = [d'; p'] /\
    Panel.x p' == 80 /\
    ~ Forall2 samePanel (panels m)
        (panels (loadPanelLayout (Some l) NetworkError m)).
Proof.
  cbv zeta. split; [repeat constructor|].
  eexists. eexists. eexists.
  split; [reflexivity|]. split; [vm_compute; reflexivity|].
  split; [vm_compute; reflexivity|].
  intros H. vm_compute in H.
  inversion H as [|? ? ? ? _ H2]; subst.
  inversion H2 as [|? ? ? ? (_ & Hx & _) _]; subst.
  revert Hx. vm_compute. discriminate.
Qed.

(** *** Every panel the monitor holds has a truthy id, width and height *)

Lemma or_str_default_truthy (o : option string) (d : string) :
  truthy_str (Some d) = true ->
  truthy_str (Some (or_str_default o d)) = true.
Proof.
  intros Hd. destruct o as [s|]; simpl; [|exact Hd].
  destruct (String.eqb s "") eqn:E; [exact Hd|]. simpl. now rewrite E.
Qed.

Lemma or_num_default_truthy (o : option number) (d : number) :
  truthy_num (Some d) = true ->
  truthy_num (Some (or_num_default o d)) = true.
Proof.
  intros Hd. destruct o as [v|]; simpl; [|exact Hd].
  destruct (Qeq_bool v 0) eqn:E; [exact Hd|]. simpl. now rewrite E.
Qed.

Lemma Math_max_truthy (a b : number) :
  truthy_num (Some a) = true -> truthy_num (Some b) = true ->
  truthy_num (Some (Math_max a b)) = true.
Proof. intros Ha Hb. unfold Math_max. now destruct (Qle_bool a b). Qed.

Lemma normalize_Truthy (yo : number) (i : nat) (r : Raw.t) :
  Truthy (Load.normalize yo i r).
Proof.
  pose proof (or_num_default_truthy (Raw.width r) 80 eq_refl) as Hw.
  pose proof (or_num_default_truthy (Raw.height r) 120 eq_refl) as Hh.
  pose proof (Math_max_truthy _ _ Hw Hh) as Hm.
  unfold Truthy, Load.normalize.
  repeat match goal with |- context [if ?b then _ else _] => destruct b end;
    cbn [Panel.id Panel.width Panel.height];
    (split; [now apply or_str_default_truthy | split; assumption]).
Qed.

Lemma localPanel_Truthy (i : nat) (r : Raw.t) : Truthy (Load.localPanel i r).
Proof.
  unfold Truthy, Load.localPanel. cbn [Panel.id Panel.width Panel.height].
  split; [now apply or_str_default_truthy|].
  split; now apply or_num_default_truthy.
Qed.

Lemma Forall_imap_all {A B : Type} (P : B -> Prop) (f : nat -> A -> B)
    (l : list A) :
  (forall i a, P (f i a)) -> Forall P (imap f l).
Proof.
  intros H. apply Forall_lookup. intros i b Hb.
  rewrite list_lookup_imap in Hb.
  destruct (l !! i); [|discriminate]. injection Hb as <-. apply H.
Qed.

Lemma createDefaultPanels_Truthy : Forall Truthy createDefaultPanels.
Proof. repeat constructor. Qed.

Lemma Truthy_frame (ps ps' : list Panel.t) :
  frame <$> ps' = frame <$> ps -> Forall Truthy ps -> Forall Truthy ps'.
Proof.
  intros Hf H. apply Forall_lookup. intros i p' Hp'.
  assert (Hl : (frame <$> ps) !! i = Some (frame p'))
    by (now rewrite <- Hf, list_lookup_fmap, Hp').
  rewrite list_lookup_fmap in Hl.
  destruct (ps !! i) as [p|] eqn:Hp; [|discriminate].
  unfold frame in Hl. injection Hl as E1 _ _ E2 E3 _ _.
  pose proof (proj1 (Forall_lookup _ _) H i p Hp) as (Hid & Hw & Hh).
  unfold Truthy. now rewrite <- E1, <- E2, <- E3.
Qed.

Lemma loadPanelLayout_Truthy (localLayout : option (list Raw.t))
    (resp : Response) (m : Monitor) :
  Forall Truthy (panels (loadPanelLayout localLayout resp m)).
Proof.
  unfold loadPanelLayout. cbn [panels].
  apply (Truthy_frame _ _ (resolveOverlaps_frame _)).
  destruct (Load.tryBlock localLayout resp) as [ps|] eqn:Et;
    [|apply createDefaultPanels_Truthy].
  destruct (length ps =? 0)%nat; [apply createDefaultPanels_Truthy|].
  unfold Load.tryBlock in Et.
  assert (Hapi : forall data, Forall Truthy (Load.fromApi data)).
  { intros data. apply Forall_imap_all. intros. apply normalize_Truthy. }
  assert (Hloc : forall l, Forall Truthy (Load.fromLocal l)).
  { intros l. apply Forall_imap_all. intros. apply localPanel_Truthy. }
  destruct localLayout as [[|r l]|]; destruct resp; try discriminate;
    injection Et as <-; apply Hapi || apply Hloc.
Qed.

Lemma handleMouseMove_Truthy (rect : ClientRect) (e : MouseEvent)
    (m : Monitor) :
  Forall Truthy (panels m) ->
  Forall Truthy (panels (handleMouseMove rect e m)).
Proof.
  intros H.
  destruct (handleMouseMove_cases rect e m) as [->|(d & dp & x & y & Hl & ->)];
    [exact H|].
  apply Forall_insert; [exact H|].
  exact (proj1 (Forall_lookup _ _) H d dp Hl).
Qed.


(** * Further properties of the code *)

(** ** The relaxation loop: pass count and fixed points *)

Lemma resolveOverlaps_length (ps : list Panel.t) :
  length (resolveOverlaps ps) = length ps.
Proof.
  pose proof (resolveOverlaps_frame ps) as H.
  apply (f_equal length) in H. now rewrite !length_fmap in H.
Qed.


Lemma while_count (remaining : nat) (ps : list Panel.t) (moved : bool)
    (iterations : nat) :
  (iterations <= Resolve.maxIterations)%nat ->
  (iterations <= (Resolve.while remaining ps moved iterations).2
   <= Resolve.maxIterations)%nat.
Proof.
  revert ps moved iterations.
  induction remaining as [|r IH]; intros ps moved iterations Hle; simpl.
  - lia.
  - destruct (moved && (iterations <? Resolve.maxIterations)%nat) eqn:E;
      [|simpl; lia].
    apply andb_true_iff in E as [_ E]. apply Nat.ltb_lt in E.
    destruct (Resolve.pass ps) as [ps' moved'].
    specialize (IH ps' moved' (S iterations)). lia.
Qed.

Lemma while_first_pass (r : nat) (ps : list Panel.t) (iterations : nat) :
  (iterations < Resolve.maxIterations)%nat ->
  (S iterations <= (Resolve.while (S r) ps true iterations).2
   <= Resolve.maxIterations)%nat.
Proof.
  intros H. cbn [Resolve.while andb].
  rewrite (proj2 (Nat.ltb_lt _ _) H).
  destruct (Resolve.pass ps) as [ps' moved'].
  apply while_count. lia.
Qed.

(** X1.  [resolveOverlaps] always returns, after at least one and at most
    100 passes; when it returns after fewer than 100 passes, the last
    pass moved nothing. *)
Theorem resolveOverlaps_pass_count (ps : list Panel.t) :
  (1 <= (Resolve.run ps).2 <= 100)%nat /\
  ((Resolve.run ps).1.2 = false \/ (Resolve.run ps).2 = 100%nat).
Proof.
  assert (Hc : (1 <= (Resolve.run ps).2 <= Resolve.maxIterations)%nat).
  { apply (while_first_pass 99 ps 0). unfold Resolve.maxIterations. lia. }
  assert (He : (Resolve.run ps).1.2 = false \/
               (Resolve.maxIterations <= (Resolve.run ps).2)%nat).
  { apply (while_exit Resolve.maxIterations ps true 0). lia. }
  revert Hc He. generalize (Resolve.run ps) as res.
  intros res Hc He. change Resolve.maxIterations with 100%nat in *.
  split; [exact Hc|]. destruct He as [He|He]; [now left | right; lia].
Qed.

(** X2.  On an array without overlapping pairs [resolveOverlaps] changes
    nothing; and once a call has ended with a pass that moved nothing,
    calling it again on the result changes nothing. *)
Theorem resolveOverlaps_stable (ps : list Panel.t) :
  (NoOverlap ps -> resolveOverlaps ps = ps) /\
  ((Resolve.run ps).1.2 = false ->
   resolveOverlaps (resolveOverlaps ps) = resolveOverlaps ps).
Proof.
  assert (Hfix : forall l, NoOverlap l -> resolveOverlaps l = l).
  { intros l Hno. unfold resolveOverlaps.
    now rewrite (resolveOverlaps_NoOverlap l Hno). }
  split; [apply Hfix|]. intros Hm. apply Hfix.
  unfold resolveOverlaps, Resolve.run in *.
  destruct (while_unmoved _ _ _ _ Hm) as [[Hf _]|Hno];
    [discriminate | exact Hno].
Qed.

Lemma resolveOverlaps_stable_witness :
  resolveOverlaps createDefaultPanels = createDefaultPanels /\
  resolveOverlaps (resolveOverlaps Sample.twoOverlapping)
    = resolveOverlaps Sample.twoOverlapping.
Proof.
  split.
  - destruct (resolveOverlaps_stable createDefaultPanels) as [H _].
    apply H. apply pairwise_clear_NoOverlap. vm_compute. reflexivity.
  - destruct (resolveOverlaps_stable Sample.twoOverlapping) as [_ H].
    apply H. vm_compute. reflexivity.
Defined.

(** ** The collision test *)

Lemma Math_max_case (a b : number) :
  (Math_max a b = b /\ a <= b) \/ (Math_max a b = a /\ b < a).
Proof.
  unfold Math_max. destruct (Qle_bool a b) eqn:E.
  - left. split; [reflexivity|]. now apply Qle_bool_iff.
  - right. split; [reflexivity|]. now apply Qle_bool_false.
Qed.

(** X3.  [panelsOverlap] does not depend on the order of its arguments;
    for rectangles of positive width and height it is true exactly when
    the intersection has positive width and positive height; rectangles
    that only touch along an edge do not overlap. *)
Theorem panelsOverlap_intersection (a b : Rect) :
  panelsOverlap a b = panelsOverlap b a /\
  (0 < rw a -> 0 < rh a -> 0 < rw b -> 0 < rh b ->
   (panelsOverlap a b = true <->
    Math_max (rx a) (rx b) < Math_min (rx a + rw a) (rx b + rw b) /\
    Math_max (ry a) (ry b) < Math_min (ry a + rh a) (ry b + rh b))) /\
  (rx a + rw a == rx b \/ ry a + rh a == ry b -> panelsOverlap a b = false).
Proof.
  split; [apply panelsOverlap_sym|]. split.
  - intros Hwa Hha Hwb Hhb. rewrite panelsOverlap_true.
    destruct (Math_max_case (rx a) (rx b)) as [[-> ?]|[-> ?]],
             (Math_min_case (rx a + rw a) (rx b + rw b)) as [[-> ?]|[-> ?]],
             (Math_max_case (ry a) (ry b)) as [[-> ?]|[-> ?]],
             (Math_min_case (ry a + rh a) (ry b + rh b)) as [[-> ?]|[-> ?]];
      split; intros; repeat split; lra.
  - intros H. apply panelsOverlap_false. destruct H; lra.
Qed.

Lemma panelsOverlap_intersection_witness :
  panelsOverlap (mkRect 0 0 80 120) (mkRect 70 0 80 120) = true /\
  panelsOverlap (mkRect 0 0 80 120) (mkRect 80 0 80 120) = false.
Proof.
  split.
  - destruct (panelsOverlap_intersection
                (mkRect 0 0 80 120) (mkRect 70 0 80 120)) as (_ & H & _).
    apply H; try reflexivity. split; vm_compute; reflexivity.
  - destruct (panelsOverlap_intersection
                (mkRect 0 0 80 120) (mkRect 80 0 80 120)) as (_ & _ & H).
    apply H. left. vm_compute. reflexivity.
Defined.

(** ** One push of the resolver *)

(** X4.  One push of the resolver along x (the axis of the smaller
    overlap), when the first panel is the left one, its right edge is the
    nearer penetration and the clamp at 0 does not cut its move: the first
    panel moves left and the second right, y is untouched, the first ends
    left of the second, and they no longer overlap.  Likewise along y. *)
Theorem separate_clears_pair (p1 p2 : Panel.t) :
  panelsOverlap p1 p2 = true ->
  let overlapX :=
    Math_min (Panel.x p1 + Panel.width p1 - Panel.x p2)
             (Panel.x p2 + Panel.width p2 - Panel.x p1) in
  let overlapY :=
    Math_min (Panel.y p1 + Panel.height p1 - Panel.y p2)
             (Panel.y p2 + Panel.height p2 - Panel.y p1) in
  let q1 := (Resolve.separate p1 p2).1 in
  let q2 := (Resolve.separate p1 p2).2 in
  (overlapX < overlapY ->
   Panel.x p1 < Panel.x p2 ->
   Panel.x p1 + Panel.width p1 - Panel.x p2
     <= Panel.x p2 + Panel.width p2 - Panel.x p1 ->
   (overlapX + Resolve.padding) / 2 <= Panel.x p1 ->
   Panel.x q1 < Panel.x p1 /\ Panel.x p2 < Panel.x q2 /\
   Panel.y q1 = Panel.y p1 /\ Panel.y q2 = Panel.y p2 /\
   Panel.x q1 + Panel.width q1 <= Panel.x q2 /\
   panelsOverlap q1 q2 = false) /\
  (overlapY <= overlapX ->
   Panel.y p1 < Panel.y p2 ->
   Panel.y p1 + Panel.height p1 - Panel.y p2
     <= Panel.y p2 + Panel.height p2 - Panel.y p1 ->
   (overlapY + Resolve.padding) / 2 <= Panel.y p1 ->
   Panel.y q1 < Panel.y p1 /\ Panel.y p2 < Panel.y q2 /\
   Panel.x q1 = Panel.x p1 /\ Panel.x q2 = Panel.x p2 /\
   Panel.y q1 + Panel.height q1 <= Panel.y q2 /\
   panelsOverlap q1 q2 = false).
Proof.
  intros Ho. cbv zeta. unfold Resolve.separate, Resolve.padding.
  pose proof Ho as Hov. apply panelsOverlap_true in Hov. simpl in Hov.
  destruct Hov as (Ha & Hb & Hc & Hd).
  split.
  - intros Hxy Hlt Hmin Hclamp.
    rewrite (proj2 (Qlt_bool_true _ _) Hxy), (proj2 (Qlt_bool_true _ _) Hlt).
    cbn [fst snd Panel.x Panel.y Panel.width Panel.set_x].
    destruct (Math_min_case (Panel.x p1 + Panel.width p1 - Panel.x p2)
                (Panel.x p2 + Panel.width p2 - Panel.x p1)) as [[E _]|[E ?]];
      [|lra].
    rewrite E in *.
    rewrite Math_max_0_id by lra.
    assert (Hhalf : forall a : Q, a == 2 * (a / 2)) by (intros; field).
    pose proof (Hhalf (Panel.x p1 + Panel.width p1 - Panel.x p2 + 10)) as Hh.
    repeat split; try lra.
    apply panelsOverlap_false. simpl. left. lra.
  - intros Hxy Hlt Hmin Hclamp.
    rewrite (proj2 (Qlt_bool_false _ _) Hxy), (proj2 (Qlt_bool_true _ _) Hlt).
    cbn [fst snd Panel.x Panel.y Panel.height Panel.set_y].
    destruct (Math_min_case (Panel.y p1 + Panel.height p1 - Panel.y p2)
                (Panel.y p2 + Panel.height p2 - Panel.y p1)) as [[E _]|[E ?]];
      [|lra].
    rewrite E in *.
    rewrite Math_max_0_id by lra.
    assert (Hhalf : forall a : Q, a == 2 * (a / 2)) by (intros; field).
    pose proof (Hhalf (Panel.y p1 + Panel.height p1 - Panel.y p2 + 10)) as Hh.
    repeat split; try lra.
    apply panelsOverlap_false. simpl. right. right. left. lra.
Qed.

Lemma separate_clears_pair_witness :
  panelsOverlap
    (Resolve.separate (Sample.plain "a" 100 0 80 120)
                      (Sample.plain "b" 170 0 80 120)).1
    (Resolve.separate (Sample.plain "a" 100 0 80 120)
                      (Sample.plain "b" 170 0 80 120)).2 = false.
Proof.
  destruct (separate_clears_pair (Sample.plain "a" 100 0 80 120)
              (Sample.plain "b" 170 0 80 120)) as [H _];
    [vm_compute; reflexivity|].
  destruct H as (_ & _ & _ & _ & _ & H);
    [vm_compute; reflexivity | vm_compute; reflexivity
     | vm_compute; discriminate | vm_compute; discriminate | exact H].
Defined.

(** ** Where the panels of a load come from *)

(** X5.  After [loadPanelLayout] the panel array is never empty.  A
    non-empty local layout is used whatever the response is and gives one
    panel per record; otherwise a payload with records gives one panel per
    record; and a failed request or a payload without records gives the
    default panels. *)
Theorem loadPanelLayout_sources (localLayout : option (list Raw.t))
    (resp : Response) (m : Monitor) :
  panels (loadPanelLayout localLayout resp m) <> [] /\
  (forall r l, localLayout = Some (r :: l) ->
     panels (loadPanelLayout localLayout resp m)
       = resolveOverlaps (Load.fromLocal (r :: l)) /\
     length (panels (loadPanelLayout localLayout resp m)) = S (length l)) /\
  (localLayout = None \/ localLayout = Some [] ->
   forall data, resp = Json data -> Load.panelsArray data <> [] ->
     panels (loadPanelLayout localLayout resp m)
       = resolveOverlaps (Load.fromApi (Load.panelsArray data)) /\
     length (panels (loadPanelLayout localLayout resp m))
       = length (Load.panelsArray data)) /\
  (localLayout = None \/ localLayout = Some [] ->
   resp = NetworkError \/ resp = HttpError \/
   (exists data, resp = Json data /\ Load.panelsArray data = []) ->
   panels (loadPanelLayout localLayout resp m) = createDefaultPanels).
Proof.
  assert (Hlen : forall ps, length (resolveOverlaps ps) = length ps).
  { intros ps. apply resolveOverlaps_length. }
  assert (Hdef : resolveOverlaps createDefaultPanels = createDefaultPanels).
  { unfold resolveOverlaps. rewrite resolveOverlaps_NoOverlap; [reflexivity|].
    apply pairwise_clear_NoOverlap. vm_compute. reflexivity. }
  split; [|split; [|split]].
  - intros Hnil. apply (f_equal length) in Hnil.
    unfold loadPanelLayout in Hnil. cbn [panels] in Hnil.
    rewrite Hlen in Hnil.
    destruct (Load.tryBlock localLayout resp) as [ps|]; [|discriminate].
    destruct (length ps =? 0)%nat eqn:E; [discriminate|].
    apply Nat.eqb_neq in E. simpl in Hnil. lia.
  - intros r l ->.
    assert (Hps : panels (loadPanelLayout (Some (r :: l)) resp m)
                  = resolveOverlaps (Load.fromLocal (r :: l))).
    { unfold loadPanelLayout. cbn [panels Load.tryBlock].
      unfold Load.fromLocal at 1. rewrite length_imap. reflexivity. }
    split; [exact Hps|]. rewrite Hps, Hlen. unfold Load.fromLocal.
    rewrite length_imap. reflexivity.
  - intros Hl data -> Hne.
    assert (Htry : Load.tryBlock localLayout (Json data)
                   = Some (Load.fromApi (Load.panelsArray data)))
      by (destruct Hl as [->| ->]; reflexivity).
    unfold loadPanelLayout. cbn [panels]. rewrite Htry.
    assert (E : (length (Load.fromApi (Load.panelsArray data)) =? 0)%nat
                = false).
    { apply Nat.eqb_neq. unfold Load.fromApi. rewrite length_imap.
      destruct (Load.panelsArray data); [contradiction | discriminate]. }
    rewrite E. split; [reflexivity|]. rewrite Hlen. unfold Load.fromApi.
    rewrite length_imap. reflexivity.
  - intros Hl Hr. unfold loadPanelLayout. cbn [panels].
    assert (Htry : Load.tryBlock localLayout resp = None \/
                   Load.tryBlock localLayout resp = Some []).
    { destruct Hl as [->| ->], Hr as [->|[->|(data & -> & E)]];
        cbn [Load.tryBlock]; auto; right; unfold Load.fromApi;
        now rewrite E. }
    destruct Htry as [->| ->]; cbn [length Nat.eqb]; exact Hdef.
Qed.

Lemma loadPanelLayout_sources_witness :
  length (panels (loadPanelLayout None (Json Sample.payloadA1) Sample.idle))
    = 1%nat /\
  panels (loadPanelLayout (Some []) HttpError Sample.idle)
    = createDefaultPanels.
Proof.
  split.
  - destruct (loadPanelLayout_sources None (Json Sample.payloadA1)
                Sample.idle) as (_ & _ & H & _).
    destruct (H (or_introl eq_refl) Sample.payloadA1 eq_refl) as [_ Hl];
      [discriminate | exact Hl].
  - destruct (loadPanelLayout_sources (Some []) HttpError Sample.idle)
      as (_ & _ & _ & H).
    apply H; [right; reflexivity | right; left; reflexivity].
Defined.

(** ** The vertical offset *)

Lemma foldl_Math_min_mem (l : list number) (v : number) :
  foldl Math_min v l = v \/ foldl Math_min v l ∈ l.
Proof.
  revert v. induction l as [|b l IH]; intros v; simpl; [now left|].
  destruct (IH (Math_min v b)) as [H|H].
  - rewrite H. destruct (Math_min_case v b) as [[-> _]|[-> _]];
      [now left | right; apply elem_of_cons; now left].
  - right. apply elem_of_cons. now right.
Qed.

Lemma Math_min_spread_mem (l : list number) (m : number) :
  Math_min_spread l = Some m -> m ∈ l.
Proof.
  destruct l as [|v l]; simpl; [discriminate|]. intros [= <-].
  destruct (foldl_Math_min_mem l v) as [->|H]; apply elem_of_cons; auto.
Qed.

(** X6.  Normalization shifts every explicit, non-zero raw y by one
    common offset, which is never below 50: it is 50 when no raw y is
    negative, and otherwise [Math.abs] of the least raw y, plus 50. *)
Theorem normalize_y_offset (arr : list Raw.t) :
  (forall (i : nat) (r : Raw.t) (v : number),
     arr !! i = Some r ->
     or_num (Raw.yCoordinate r) (Raw.y r) = Some v -> ~ v == 0 ->
     Panel.y (Load.normalize (Load.yOffset arr) i r) = v + Load.yOffset arr) /\
  50 <= Load.yOffset arr /\
  ((forall r, r ∈ arr -> 0 <= Load.yCoord r) -> Load.yOffset arr = 50) /\
  (forall r, r ∈ arr -> Load.yCoord r < 0 ->
     (forall r', r' ∈ arr -> Load.yCoord r <= Load.yCoord r') ->
     Load.yOffset arr == Math_abs (Load.yCoord r) + 50).
Proof.
  split; [|split; [|split]].
  - intros i r v _ Hv Hne. rewrite normalize_y, Hv. simpl.
    destruct (Qeq_bool v 0) eqn:E; [|reflexivity].
    apply Qeq_bool_eq in E. contradiction.
  - apply yOffset_ge_50.
  - intros Hall. unfold Load.yOffset.
    destruct (Math_min_spread _) as [minY|] eqn:E; [|reflexivity].
    apply Math_min_spread_mem, list_elem_of_fmap in E as (r & -> & Hr).
    specialize (Hall r Hr).
    now rewrite (proj2 (Qlt_bool_false _ _) Hall).
  - intros r Hr Hneg Hmin. unfold Load.yOffset.
    destruct (Math_min_spread _) as [minY|] eqn:E.
    + pose proof (Math_min_spread_le _ _ (Load.yCoord r) E) as Hle.
      apply Math_min_spread_mem, list_elem_of_fmap in E as (r' & -> & Hr').
      specialize (Hmin r' Hr').
      assert (Hle' : Load.yCoord r' <= Load.yCoord r).
      { apply Hle. apply list_elem_of_fmap. now exists r. }
      assert (Hlt : Load.yCoord r' < 0) by lra.
      rewrite (proj2 (Qlt_bool_true _ _) Hlt). unfold Math_abs.
      pose proof (Qabs_neg (Load.yCoord r')).
      pose proof (Qabs_neg (Load.yCoord r)). lra.
    + destruct arr; [inversion Hr | discriminate].
Qed.

Lemma normalize_y_offset_witness :
  Load.yOffset [Sample.rawA1] == Math_abs (Load.yCoord Sample.rawA1) + 50.
Proof.
  destruct (normalize_y_offset [Sample.rawA1]) as (_ & _ & _ & H).
  apply (H Sample.rawA1).
  - apply list_elem_of_singleton. reflexivity.
  - vm_compute. reflexivity.
  - intros r' Hr'. apply list_elem_of_singleton in Hr'. subst r'.
    vm_compute. discriminate.
Defined.

(** ** The rotation angle *)

Lemma Qdiv_360 (a : Q) : a == 360 * (a / 360).
Proof. field. Qed.

Lemma js_rem_nonpos_range (a : Q) :
  a <= 0 -> -360 < js_rem a 360 /\ js_rem a 360 <= 0.
Proof.
  intros Ha. unfold js_rem, trunc.
  pose proof (Qdiv_360 a) as Hmul.
  destruct (Qle_bool 0 (a / 360)) eqn:E.
  - apply Qle_bool_iff in E.
    assert (Hz : a / 360 == 0) by lra.
    rewrite (Qfloor_comp _ _ Hz). change (inject_Z (Qfloor 0)) with 0.
    split; lra.
  - pose proof (Qle_ceiling (a / 360)) as Hlo.
    pose proof (Qceiling_lt (a / 360)) as Hhi.
    assert (Hi : inject_Z (Qceiling (a / 360) - 1)
                 == inject_Z (Qceiling (a / 360)) - 1).
    { unfold Z.sub. rewrite inject_Z_plus. reflexivity. }
    apply Qle_bool_false in E.
    assert (Hc : inject_Z (Qceiling (a / 360)) <= 0).
    { change 0 with (inject_Z 0). rewrite <- Zle_Qle.
      assert (Hq : (Qceiling (a / 360) <= Qceiling 0)%Z)
        by (apply Qceiling_resp_le; lra).
      exact Hq. }
    split; lra.
Qed.

(** X7.  The normalized rotation lies strictly between -360 and 360 and
    has the sign of the raw rotation; a raw rotation in [0, 360) is kept
    as it is, and a missing one gives 0. *)
Theorem normalize_rotation_range (yOffset : number) (index : nat)
    (panel : Raw.t) :
  let raw := or_num_default (Raw.planeRotation panel) 0 in
  let rotation := Panel.planeRotation (Load.normalize yOffset index panel) in
  (-360 < rotation /\ rotation < 360) /\
  (0 <= raw -> 0 <= rotation) /\
  (raw <= 0 -> rotation <= 0) /\
  (0 <= raw -> raw < 360 -> rotation == raw) /\
  (Raw.planeRotation panel = None -> rotation = 0).
Proof.
  cbv zeta. rewrite normalize_planeRotation.
  set (raw := or_num_default (Raw.planeRotation panel) 0).
  split; [|split; [|split; [|split]]].
  - destruct (Qlt_le_dec raw 0) as [H|H].
    + destruct (js_rem_nonpos_range raw) as [? ?]; [lra|]. split; lra.
    + destruct (js_rem_nonneg_range raw H) as [? ?]. split; lra.
  - intros H. apply (js_rem_nonneg_range raw H).
  - intros H. apply (js_rem_nonpos_range raw H).
  - intros H0 H1. unfold js_rem, trunc.
    assert (Hq : 0 <= raw / 360).
    { unfold Qdiv. apply Qmult_le_0_compat; [exact H0 | discriminate]. }
    rewrite (proj2 (Qle_bool_iff _ _) Hq).
    assert (Hf : Qfloor (raw / 360) = 0%Z).
    { pose proof (Qfloor_le (raw / 360)) as Hlo.
      pose proof (Qlt_floor (raw / 360)) as Hhi.
      pose proof (Qdiv_360 raw) as Hmul.
      assert (Hlt1 : raw / 360 < 1) by lra.
      assert (H1' : (Qfloor (raw / 360) < 1)%Z).
      { rewrite Zlt_Qlt. change (inject_Z 1) with 1. lra. }
      assert (H0' : (0 <= Qfloor (raw / 360))%Z).
      { change 0%Z with (Qfloor 0). apply Qfloor_resp_le. exact Hq. }
      lia. }
    rewrite Hf. change (inject_Z 0) with 0. lra.
  - unfold raw. intros ->. vm_compute. reflexivity.
Qed.

Lemma normalize_rotation_range_witness :
  Panel.planeRotation (Load.normalize 50 0 Sample.rawA1) == 90.
Proof.
  destruct (normalize_rotation_range 50 0 Sample.rawA1) as (_ & _ & _ & H & _).
  apply H; vm_compute; (reflexivity || discriminate).
Defined.

(** ** Synthesized ids *)

(** X9.  When no record of a payload carries an id field
    (inverterSerialNumber, id, ID), panel [i] gets the id [panel-i], and
    these ids are pairwise distinct. *)
Theorem fromApi_fallback_ids (arr : list Raw.t) :
  Forall (fun r => truthy_str (Raw.inverterSerialNumber r) = false /\
                   truthy_str (Raw.id r) = false /\
                   truthy_str (Raw.ID r) = false) arr ->
  (forall (i : nat) (p : Panel.t),
     Load.fromApi arr !! i = Some p ->
     Panel.id p = ("panel-" +:+ pretty i)%string) /\
  NoDup (Panel.id <$> Load.fromApi arr).
Proof.
  intros Hall.
  assert (Hid : forall (i : nat) (p : Panel.t),
            Load.fromApi arr !! i = Some p ->
            Panel.id p = ("panel-" +:+ pretty i)%string).
  { intros i p Hp. unfold Load.fromApi in Hp.
    rewrite list_lookup_imap in Hp.
    destruct (arr !! i) as [r|] eqn:Er; [|discriminate].
    injection Hp as <-.
    destruct (proj1 (Forall_lookup _ _) Hall i r Er) as (H1 & H2 & H3).
    unfold Load.normalize.
    repeat match goal with |- context [if ?b then _ else _] => destruct b end;
      cbn [Panel.id]; unfold or_str; rewrite H1, H2;
      destruct (Raw.ID r) as [s|]; simpl in *; try reflexivity;
      destruct (String.eqb s ""); (reflexivity || discriminate). }
  split; [exact Hid|].
  apply NoDup_alt. intros i j s Hi Hj.
  rewrite list_lookup_fmap in Hi, Hj.
  destruct (Load.fromApi arr !! i) as [p|] eqn:Ep; [|discriminate].
  destruct (Load.fromApi arr !! j) as [q|] eqn:Eq; [|discriminate].
  injection Hi as Hi. injection Hj as Hj.
  rewrite (Hid i p Ep) in Hi. rewrite (Hid j q Eq) in Hj.
  rewrite <- Hj in Hi. simpl in Hi.
  injection Hi as Hi. now apply pretty_nat_inj in Hi.
Qed.

Lemma fromApi_fallback_ids_witness :
  NoDup (Panel.id <$> Load.fromApi [Sample.rawOrigin; Sample.rawTilted]).
Proof.
  apply (fromApi_fallback_ids [Sample.rawOrigin; Sample.rawTilted]).
  repeat constructor.
Defined.

(** ** One drag step: what it touches and where the panel lands *)

(** X10.  A drag step writes nothing but the position of the dragged
    panel: every panel keeps its id, serial numbers, size and rotation,
    every panel other than the dragged one is unchanged, and so are
    maxPower, the drag offset and the edit switch.  Outside a drag the
    step changes nothing; in a drag with the edit switch off it ends the
    drag and moves nothing. *)
Theorem handleMouseMove_frame (rect : ClientRect) (e : MouseEvent)
    (m : Monitor) :
  frame <$> panels (handleMouseMove rect e m) = frame <$> panels m /\
  (forall k : nat, dragPanel m <> Some k ->
     panels (handleMouseMove rect e m) !! k = panels m !! k) /\
  maxPower (handleMouseMove rect e m) = maxPower m /\
  dragOffset (handleMouseMove rect e m) = dragOffset m /\
  editPlacementEnabled (handleMouseMove rect e m) = editPlacementEnabled m /\
  (isDragging m = false -> handleMouseMove rect e m = m) /\
  (isDragging m = true -> editPlacementEnabled m = false ->
   isDragging (handleMouseMove rect e m) = false /\
   dragPanel (handleMouseMove rect e m) = None /\
   panels (handleMouseMove rect e m) = panels m).
Proof.
  unfold handleMouseMove, handleMouseUp.
  destruct (isDragging m) eqn:Ed; [destruct (editPlacementEnabled m) eqn:Ee|];
    cbn [andb negb].
  - destruct (dragPanel m) as [d|] eqn:Ep;
      [|rewrite Ee; repeat split; intros; congruence].
    destruct (panels m !! d) as [dp|] eqn:El;
      [|rewrite Ee; repeat split; intros; congruence].
    destruct (Drag.loop dp d (Drag.candidate rect e m) 0 (panels m)) as [x y].
    cbn [panels maxPower dragOffset editPlacementEnabled set_panels].
    split; [|split].
    + rewrite list_fmap_insert. apply list_insert_id.
      now rewrite list_lookup_fmap, El.
    + intros k Hk. apply list_lookup_insert_ne. congruence.
    + repeat split; intros; congruence.
  - cbn [panels maxPower dragOffset editPlacementEnabled isDragging
         dragPanel].
    repeat split; intros; congruence.
  - destruct (editPlacementEnabled m); cbn [andb negb];
      repeat split; intros; congruence.
Qed.



(** X12.  In a drag, when the other panels do not overlap one another and
    the clamped candidate position overlaps none of them, the dragged
    panel is put exactly on the candidate position, keeps everything else,
    and the array has no overlapping pair. *)
Theorem drag_step_free_spot (rect : ClientRect) (e : MouseEvent)
    (m : Monitor) (d : nat) (dp : Panel.t) :
  isDragging m = true -> editPlacementEnabled m = true ->
  dragPanel m = Some d -> panels m !! d = Some dp ->
  (forall (i j : nat) (p q : Panel.t),
     i <> j -> i <> d -> j <> d ->
     panels m !! i = Some p -> panels m !! j = Some q ->
     panelsOverlap p q = false) ->
  (forall (j : nat) (q : Panel.t),
     j <> d -> panels m !! j = Some q ->
     panelsOverlap (dragRect dp (Drag.candidate rect e m)) q = false) ->
  (exists p : Panel.t,
     panels (handleMouseMove rect e m) !! d = Some p /\
     Panel.x p = (Drag.candidate rect e m).1 /\
     Panel.y p = (Drag.candidate rect e m).2 /\
     frame p = frame dp) /\
  NoOverlap (panels (handleMouseMove rect e m)).
Proof.
  intros Hd He Hp Hl Hothers Hfree.
  split; [|now apply (drag_step_free_candidate rect e m d dp)].
  assert (Hnone : lastPush dp d (Drag.candidate rect e m) 0 (panels m) = None).
  { apply lastPush_None. intros j q Hq. simpl. unfold hits.
    destruct (decide (j = d)) as [->|Hne].
    - now rewrite Nat.eqb_refl.
    - rewrite (Hfree j q Hne Hq). apply andb_false_r. }
  destruct (loop_lastPush dp d (panels m) 0 (Drag.candidate rect e m))
    as (Hpos & _ & _).
  specialize (Hpos Hnone).
  rewrite (handleMouseMove_dragging rect e m d dp Hd He Hp Hl), Hpos.
  eexists. split.
  - apply list_lookup_insert_eq. eapply lookup_lt_Some. exact Hl.
  - unfold Drag.candidate. cbn [fst snd Panel.x Panel.y Panel.set_x Panel.set_y].
    repeat split; apply Math_max_0_id, Math_max_l.
Qed.

Lemma drag_step_free_spot_witness :
  NoOverlap (panels (handleMouseMove Sample.canvas (mkMouseEvent 200 0)
                       Sample.dragging)).
Proof.
  apply (drag_step_free_spot Sample.canvas (mkMouseEvent 200 0)
           Sample.dragging 2 (Sample.plain "d" 300 300 80 120)).
  - reflexivity.
  - reflexivity.
  - reflexivity.
  - reflexivity.
  - intros [|[|[|i]]] [|[|[|j]]] p q Hne Hi Hj Hp Hq; try congruence;
      try discriminate;
      simpl in Hp, Hq; injection Hp as <-; injection Hq as <-;
      vm_compute; reflexivity.
  - intros [|[|[|j]]] q Hj Hq; try congruence; try discriminate;
      simpl in Hq; injection Hq as <-; vm_compute; reflexivity.
Defined.

(** ** The colour scale *)

(** X13.  With maxPower 0 every power is drawn black.  With maxPower > 0
    a positive power gives red = blue = 0 and a green between 30 and 255,
    and a power of maxPower or more gives green 255. *)
Theorem getColorForPower_range (maxPower power : number) :
  (maxPower == 0 -> getColorForPower maxPower power = Black) /\
  (0 < maxPower -> 0 < power ->
   exists g : Z,
     getColorForPower maxPower power = Rgb 0 g 0 /\ (30 <= g <= 255)%Z) /\
  (0 < maxPower -> maxPower <= power ->
   getColorForPower maxPower power = Rgb 0 255 0).
Proof.
  split; [|split].
  - intros H. unfold getColorForPower. now rewrite (Qeq_eq_bool _ _ H).
  - intros Hm Hp.
    rewrite getColorForPower_nonzero by lra. eexists. split; [reflexivity|].
    pose proof (ratio_nonneg maxPower power Hm (Qlt_le_weak _ _ Hp)) as H0.
    pose proof (Math_min_le_r (power / maxPower) 1) as H1.
    split.
    + refine (Qfloor_resp_le 30 _ _). lra.
    + refine (Qfloor_resp_le _ 255 _). lra.
  - intros Hm Hp.
    rewrite getColorForPower_nonzero by lra. f_equal.
    transitivity (Qfloor 255); [|reflexivity]. apply Qfloor_comp.
    assert (Hdiv : 1 <= power / maxPower).
    { apply Qle_shift_div_l; lra. }
    destruct (Math_min_case (power / maxPower) 1) as [[-> ?]|[-> ?]]; lra.
Qed.

Lemma getColorForPower_range_witness :
  getColorForPower 400 1000 = Rgb 0 255 0.
Proof.
  destruct (getColorForPower_range 400 1000) as (_ & _ & H).
  apply H; [reflexivity | discriminate].
Defined.

(** ** Fields that stay truthy *)

Lemma resolveOverlaps_Truthy (ps : list Panel.t) :
  Forall Truthy ps -> Forall Truthy (resolveOverlaps ps).
Proof. apply Truthy_frame, resolveOverlaps_frame. Qed.

(** X8.  Every panel of a loaded layout has a non-empty id and a width
    and height other than 0, and the overlap resolver and the drag step
    keep it so. *)
Theorem panels_stay_truthy :
  (forall (localLayout : option (list Raw.t)) (resp : Response) (m : Monitor),
     Forall Truthy (panels (loadPanelLayout localLayout resp m))) /\
  (forall ps : list Panel.t,
     Forall Truthy ps -> Forall Truthy (resolveOverlaps ps)) /\
  (forall (rect : ClientRect) (e : MouseEvent) (m : Monitor),
     Forall Truthy (panels m) ->
     Forall Truthy (panels (handleMouseMove rect e m))).
Proof.
  split; [apply loadPanelLayout_Truthy|].
  split; [apply resolveOverlaps_Truthy | apply handleMouseMove_Truthy].
Qed.

Lemma panels_stay_truthy_witness :
  Forall Truthy (resolveOverlaps Sample.twoOverlapping).
Proof.
  destruct panels_stay_truthy as (_ & H & _).
  apply (H Sample.twoOverlapping). repeat constructor.
Defined.

(** ** Power readings *)

Section PowerProperties.
Variable parseFloat_str : string -> option number.
Variable toLowerCase : string -> string.

Local Abbreviation getPower := (getPowerValue parseFloat_str).
Local Abbreviation store := (storeReading parseFloat_str toLowerCase).
Local Abbreviation process := (processReadings parseFloat_str toLowerCase).
Local Abbreviation load := (loadPowerData parseFloat_str toLowerCase).
Local Abbreviation loop_inv := (loop_inv parseFloat_str toLowerCase).

Lemma getPowerValue_empty : getPower Device.empty = 0.
Proof. reflexivity. Qed.

(** The join reads nothing of a panel but its three identity fields. *)
Lemma powerInfo_frame (pd : gmap string Device.t) (p q : Panel.t) :
  frame p = frame q -> powerInfo pd p = powerInfo pd q.
Proof.
  unfold frame, powerInfo. intros H. injection H as -> -> -> _ _ _ _.
  reflexivity.
Qed.

(** *** The loop of [loadPowerData] *)

Lemma store_skip (st : PowerLoad.state) (device : Device.t) :
  (forall s, ~ (PowerLoad.serial device = Some s /\ s <> ""%string)) ->
  store st device = st.
Proof.
  intros H. unfold storeReading.
  destruct (PowerLoad.serial device) as [s|]; [|reflexivity].
  destruct (String.eqb s "") eqn:E; [reflexivity|].
  exfalso. apply (H s). split; [reflexivity|].
  now apply String.eqb_neq.
Qed.

Lemma store_keep (st : PowerLoad.state) (device : Device.t) (s : string) :
  PowerLoad.serial device = Some s -> s <> ""%string ->
  store st device =
  ((if negb (String.eqb s (toLowerCase s))
    then <[toLowerCase s := device]> (<[s := device]> st.1)
    else <[s := device]> st.1),
   if Qlt_bool st.2 (getPower device) then getPower device else st.2).
Proof.
  intros Hs Hne. unfold storeReading. rewrite Hs.
  apply String.eqb_neq in Hne. now rewrite Hne.
Qed.

Lemma store_lookup_new (st : PowerLoad.state) (device : Device.t)
    (s : string) :
  PowerLoad.serial device = Some s -> s <> ""%string ->
  (store st device).1 !! s = Some device /\
  (store st device).1 !! toLowerCase s = Some device.
Proof.
  intros Hs Hne. rewrite (store_keep st device s Hs Hne). cbn [fst].
  destruct (String.eqb s (toLowerCase s)) eqn:E; cbn [negb].
  - apply String.eqb_eq in E. rewrite <- E.
    split; apply lookup_insert_eq.
  - apply String.eqb_neq in E. split.
    + rewrite lookup_insert_ne by congruence. apply lookup_insert_eq.
    + apply lookup_insert_eq.
Qed.

Lemma store_lookup_other (st : PowerLoad.state) (device : Device.t)
    (k : string) :
  (forall s, PowerLoad.serial device = Some s -> s <> ""%string ->
     k <> s /\ k <> toLowerCase s) ->
  (store st device).1 !! k = st.1 !! k.
Proof.
  intros H. unfold storeReading.
  destruct (PowerLoad.serial device) as [s|] eqn:Hs; [|reflexivity].
  destruct (String.eqb s "") eqn:E; [reflexivity|].
  apply String.eqb_neq in E. destruct (H s eq_refl E) as [H1 H2].
  cbn [fst]. destruct (negb (String.eqb s (toLowerCase s)));
    rewrite ?lookup_insert_ne by congruence; reflexivity.
Qed.

Lemma store_keeps_key (st : PowerLoad.state) (device : Device.t)
    (k : string) :
  is_Some (st.1 !! k) -> is_Some ((store st device).1 !! k).
Proof.
  intros H. unfold storeReading.
  destruct (PowerLoad.serial device) as [s|]; [|exact H].
  destruct (String.eqb s ""); [exact H|]. cbn [fst].
  assert (Hins : forall (pd : gmap string Device.t) (k' : string),
            is_Some (pd !! k) -> is_Some (<[k' := device]> pd !! k)).
  { intros pd k' Hpd. apply lookup_insert_is_Some.
    destruct (decide (k' = k)); auto. }
  destruct (negb (String.eqb s (toLowerCase s))); auto.
Qed.

Lemma store_lookup_cases (st : PowerLoad.state) (device : Device.t)
    (k : string) (d : Device.t) :
  (store st device).1 !! k = Some d ->
  st.1 !! k = Some d \/
  (d = device /\ exists s, PowerLoad.serial device = Some s /\
                           s <> ""%string /\ (k = s \/ k = toLowerCase s)).
Proof.
  unfold storeReading.
  destruct (PowerLoad.serial device) as [s|] eqn:Hs; [|now left].
  destruct (String.eqb s "") eqn:E; [now left|].
  apply String.eqb_neq in E. cbn [fst].
  assert (Hins : forall (pd : gmap string Device.t) (k' : string),
            <[k' := device]> pd !! k = Some d ->
            pd !! k = Some d \/ (d = device /\ k = k')).
  { intros pd k' H. destruct (decide (k' = k)) as [->|Hne].
    - rewrite lookup_insert_eq in H. injection H as <-. now right.
    - rewrite lookup_insert_ne in H by exact Hne. now left. }
  destruct (negb (String.eqb s (toLowerCase s))); intros H.
  - apply Hins in H as [H|[-> ->]]; [|right; eauto 10].
    apply Hins in H as [H|[-> ->]]; [now left | right; eauto 10].
  - apply Hins in H as [H|[-> ->]]; [now left | right; eauto 10].
Qed.

Lemma store_maxPower (st : PowerLoad.state) (device : Device.t) :
  st.2 <= (store st device).2 /\
  (forall s, PowerLoad.serial device = Some s -> s <> ""%string ->
     getPower device <= (store st device).2).
Proof.
  unfold storeReading.
  destruct (PowerLoad.serial device) as [s|] eqn:Hs;
    [|split; [lra | discriminate]].
  destruct (String.eqb s "") eqn:E.
  - apply String.eqb_eq in E. split; [lra|]. intros s' [= <-]. contradiction.
  - cbn [snd]. destruct (Qlt_bool st.2 (getPower device)) eqn:El.
    + apply Qlt_bool_true in El. split; [lra|]. intros; lra.
    + apply Qlt_bool_false in El. split; [lra|]. intros; assumption.
Qed.

Lemma store_loop_inv (l : list Device.t) (st : PowerLoad.state)
    (device : Device.t) :
  device ∈ l -> loop_inv l st -> loop_inv l (store st device).
Proof.
  intros Hin (Hpos & Hatt & Hall).
  destruct (store_maxPower st device) as [Hmono Hnew].
  split; [lra|]. split.
  { unfold storeReading.
    destruct (PowerLoad.serial device) as [s|]; [|exact Hatt].
    destruct (String.eqb s ""); [exact Hatt|]. cbn [snd].
    destruct (Qlt_bool st.2 (getPower device)); [|exact Hatt].
    right. now exists device. }
  intros k d Hk.
  apply store_lookup_cases in Hk as [Hk|(-> & s & Hs & Hne & Hkey)].
  - destruct (Hall k d Hk) as (Hle & Hd & Hex).
    split; [lra|]. split; assumption.
  - split; [now apply (Hnew s)|]. split; [exact Hin|]. eauto.
Qed.

Lemma foldl_store_inv (l l' : list Device.t) (st : PowerLoad.state) :
  (forall d, d ∈ l' -> d ∈ l) -> loop_inv l st ->
  loop_inv l (foldl store st l').
Proof.
  revert st. induction l' as [|d l' IH]; intros st Hsub Hinv; simpl.
  - exact Hinv.
  - apply IH.
    + intros d' Hd'. apply Hsub. apply elem_of_cons. now right.
    + apply store_loop_inv; [|exact Hinv].
      apply Hsub. apply elem_of_cons. now left.
Qed.

Lemma process_inv (data : PowerPayload) :
  loop_inv (filter (fun d => PowerLoad.isInverter d = true)
                   (PowerLoad.devices data)) (process data).
Proof.
  unfold processReadings. apply foldl_store_inv; [auto|].
  split; [cbn; lra|]. split; [now left|]. apply map_Forall_empty.
Qed.

Lemma defaultMaxPower_pos (mp : number) :
  0 <= mp -> 0 < Load.defaultMaxPower mp /\ mp <= Load.defaultMaxPower mp.
Proof.
  intros H. unfold Load.defaultMaxPower.
  destruct (Qeq_bool mp 0) eqn:E.
  - apply Qeq_bool_eq in E. split; lra.
  - apply Qeq_bool_neq in E. split; lra.
Qed.

(** The power of a panel is that of a stored record, or 0. *)
Lemma panelPower_cases (pm : PowerMonitor) (panel : Panel.t) :
  getPower (powerInfo (powerData pm) panel) = 0 \/
  exists k d, powerData pm !! k = Some d /\
              getPower (powerInfo (powerData pm) panel) = getPower d.
Proof.
  unfold powerInfo.
  destruct (powerData pm !! Panel.id panel) as [d|] eqn:E1; [right; eauto|].
  destruct (powerData pm !! property_key (Panel.serialNumber panel))
    as [d|] eqn:E2; [right; eauto|].
  destruct (powerData pm !! property_key (Panel.inverterSerialNumber panel))
    as [d|] eqn:E3; [right; eauto|].
  now left.
Qed.

Lemma loadPowerData_maxPower_aux (data : PowerPayload) (pm : PowerMonitor) :
  let pm' := load (PowerJson data) pm in
  0 < maxPower (monitor pm') /\
  (forall (k : string) (d : Device.t),
     powerData pm' !! k = Some d -> getPower d <= maxPower (monitor pm')) /\
  (forall panel : Panel.t,
     panelPower parseFloat_str pm' panel <= maxPower (monitor pm')) /\
  (maxPower (monitor pm') = 400 \/
   exists d, d ∈ PowerLoad.devices data /\
             PowerLoad.isInverter d = true /\
             getPower d = maxPower (monitor pm')).
Proof.
  cbv zeta. unfold loadPowerData.
  pose proof (process_inv data) as (Hpos & Hatt & Hall).
  destruct (process data) as [pd mp]. cbn [fst snd] in *.
  cbn [monitor maxPower powerData].
  destruct (defaultMaxPower_pos mp Hpos) as [Hgt Hle].
  assert (Hstored : forall (k : string) (d : Device.t),
            pd !! k = Some d -> getPower d <= Load.defaultMaxPower mp).
  { intros k d Hk. destruct (Hall k d Hk) as [H _]. lra. }
  split; [exact Hgt|]. split; [exact Hstored|]. split.
  - intros panel. unfold panelPower. cbn [powerData].
    destruct (panelPower_cases (mkPowerMonitor (monitor pm) pd) panel)
      as [H|(k & d & Hk & H)]; cbn [powerData] in *; rewrite H.
    + lra.
    + now apply (Hstored k).
  - unfold Load.defaultMaxPower.
    destruct (Qeq_bool mp 0) eqn:E; [now left|]. right.
    destruct Hatt as [->|(d & Hd & Hp)]; [discriminate|].
    apply list_elem_of_filter in Hd as [Hinv Hd]. eauto.
Qed.

(** X14.  After [loadPowerData] has read a payload, maxPower is positive
    and no stored record, hence no panel, has a power above it; maxPower
    is 400 or the power of an inverter of the payload. *)
Theorem loadPowerData_maxPower (data : PowerPayload) (pm : PowerMonitor) :
  let pm' := load (PowerJson data) pm in
  0 < maxPower (monitor pm') /\
  (forall (k : string) (d : Device.t),
     powerData pm' !! k = Some d -> getPower d <= maxPower (monitor pm')) /\
  (forall panel : Panel.t,
     panelPower parseFloat_str pm' panel <= maxPower (monitor pm')) /\
  (maxPower (monitor pm') = 400 \/
   exists d, d ∈ PowerLoad.devices data /\
             PowerLoad.isInverter d = true /\
             getPower d = maxPower (monitor pm')).
Proof. exact (loadPowerData_maxPower_aux data pm). Qed.

(** X15.  After [loadPowerData] has read a payload, every entry of the
    table is an inverter of the payload, stored under its serial or under
    the lower-cased serial; every inverter with a non-empty serial has an
    entry under both keys; and under a key the record that stays is the
    last one of the payload stored there. *)
Theorem loadPowerData_stored (data : PowerPayload) (pm : PowerMonitor) :
  let pd := powerData (load (PowerJson data) pm) in
  (forall (k : string) (d : Device.t),
     pd !! k = Some d ->
     d ∈ PowerLoad.devices data /\ PowerLoad.isInverter d = true /\
     exists s, PowerLoad.serial d = Some s /\ s <> ""%string /\
               (k = s \/ k = toLowerCase s)) /\
  (forall (d : Device.t) (s : string),
     d ∈ PowerLoad.devices data -> PowerLoad.isInverter d = true ->
     PowerLoad.serial d = Some s -> s <> ""%string ->
     is_Some (pd !! s) /\ is_Some (pd !! toLowerCase s)) /\
  (forall (l1 l2 : list Device.t) (d : Device.t) (s k : string),
     PowerLoad.devices data = l1 ++ d :: l2 ->
     PowerLoad.isInverter d = true ->
     PowerLoad.serial d = Some s -> s <> ""%string ->
     k = s \/ k = toLowerCase s ->
     (forall d' s', d' ∈ l2 -> PowerLoad.isInverter d' = true ->
        PowerLoad.serial d' = Some s' -> s' <> ""%string ->
        k <> s' /\ k <> toLowerCase s') ->
     pd !! k = Some d).
Proof.
  cbv zeta. unfold loadPowerData.
  pose proof (process_inv data) as (_ & _ & Hall).
  destruct (process data) as [pd mp] eqn:Ep. cbn [fst snd powerData] in *.
  assert (Hlast : forall (l1 l2 : list Device.t) (d : Device.t) (s k : string),
            PowerLoad.devices data = l1 ++ d :: l2 ->
            PowerLoad.isInverter d = true ->
            PowerLoad.serial d = Some s -> s <> ""%string ->
            k = s \/ k = toLowerCase s ->
            (forall d' s', d' ∈ l2 -> PowerLoad.isInverter d' = true ->
               PowerLoad.serial d' = Some s' -> s' <> ""%string ->
               k <> s' /\ k <> toLowerCase s') ->
            pd !! k = Some d).
  { intros l1 l2 d s k Hdev Hinv Hs Hne Hk Hlater.
    assert (Epd : pd = (process data).1) by now rewrite Ep.
    rewrite Epd. unfold processReadings. rewrite Hdev.
    rewrite filter_app, filter_cons_True by exact Hinv.
    rewrite foldl_app. cbn [foldl].
    set (st := store (foldl store (∅, 0) (filter _ l1)) d).
    assert (Hst : st.1 !! k = Some d).
    { destruct (store_lookup_new (foldl store (∅, 0)
                  (filter (fun d => PowerLoad.isInverter d = true) l1))
                  d s Hs Hne) as [H1 H2].
      destruct Hk as [->| ->]; assumption. }
    clearbody st. clear Hdev Epd Ep.
    revert st Hst. induction l2 as [|d' l2 IH]; intros st Hst.
    - exact Hst.
    - destruct (PowerLoad.isInverter d') eqn:Ei.
      + rewrite filter_cons_True by exact Ei. cbn [foldl]. apply IH.
        * intros d'' s'' Hd''. apply Hlater. apply elem_of_cons. now right.
        * rewrite store_lookup_other; [exact Hst|].
          intros s' Hs' Hne'. apply (Hlater d' s'); auto.
          apply elem_of_cons. now left.
      + rewrite filter_cons_False by (rewrite Ei; discriminate).
        apply IH; [|exact Hst].
        intros d'' s'' Hd''. apply Hlater. apply elem_of_cons. now right. }
  split; [|split; [|exact Hlast]].
  - intros k d Hk. destruct (Hall k d Hk) as (_ & Hd & Hex).
    apply list_elem_of_filter in Hd as [Hinv Hd]. auto.
  - intros d s Hd Hinv Hs Hne.
    assert (Hkey : forall k, k = s \/ k = toLowerCase s -> is_Some (pd !! k)).
    { intros k Hk.
      assert (Epd : pd = (process data).1) by now rewrite Ep.
      rewrite Epd. unfold processReadings.
      apply list_elem_of_split in Hd as (l1 & l2 & ->).
      rewrite filter_app, filter_cons_True by exact Hinv.
      rewrite foldl_app. cbn [foldl].
      set (st := store (foldl store (∅, 0) (filter _ l1)) d).
      assert (Hst : is_Some (st.1 !! k)).
      { destruct (store_lookup_new (foldl store (∅, 0)
                    (filter (fun d => PowerLoad.isInverter d = true) l1))
                    d s Hs Hne) as [H1 H2].
        destruct Hk as [->| ->]; eauto. }
      clearbody st.
      generalize (filter (fun d => PowerLoad.isInverter d = true) l2) as l.
      intros l. revert st Hst. induction l as [|d' l IH]; intros st Hst.
      - exact Hst.
      - cbn [foldl]. apply IH.
        now apply store_keeps_key. }
    split; apply Hkey; auto.
Qed.

(** X16.  [loadPowerData] leaves the panels and the drag state alone
    whatever the response is.  When the request fails it keeps the table
    of readings, and keeps maxPower unless that is 0, which becomes
    400. *)
Theorem loadPowerData_frame (resp : PowerResponse) (pm : PowerMonitor) :
  panels (monitor (load resp pm)) = panels (monitor pm) /\
  isDragging (monitor (load resp pm)) = isDragging (monitor pm) /\
  dragPanel (monitor (load resp pm)) = dragPanel (monitor pm) /\
  dragOffset (monitor (load resp pm)) = dragOffset (monitor pm) /\
  editPlacementEnabled (monitor (load resp pm))
    = editPlacementEnabled (monitor pm) /\
  (resp = PowerNetworkError \/ resp = PowerHttpError ->
   powerData (load resp pm) = powerData pm /\
   (~ maxPower (monitor pm) == 0 ->
    maxPower (monitor (load resp pm)) = maxPower (monitor pm)) /\
   (maxPower (monitor pm) == 0 -> maxPower (monitor (load resp pm)) = 400)).
Proof.
  assert (Hdef : forall mp : number,
            (~ mp == 0 -> Load.defaultMaxPower mp = mp) /\
            (mp == 0 -> Load.defaultMaxPower mp = 400)).
  { intros mp. unfold Load.defaultMaxPower. split; intros Hm.
    - destruct (Qeq_bool mp 0) eqn:E; [|reflexivity].
      apply Qeq_bool_eq in E. contradiction.
    - now rewrite (Qeq_eq_bool _ _ Hm). }
  unfold loadPowerData. destruct resp as [| |data].
  - cbn [monitor powerData panels isDragging dragPanel dragOffset
         editPlacementEnabled maxPower].
    repeat split; apply Hdef.
  - cbn [monitor powerData panels isDragging dragPanel dragOffset
         editPlacementEnabled maxPower].
    repeat split; apply Hdef.
  - destruct (process data) as [pd mp].
    cbn [monitor powerData panels isDragging dragPanel dragOffset
         editPlacementEnabled maxPower].
    repeat split; destruct H; discriminate.
Qed.

(** *** The summary *)



(** X18.  A panel none of whose three keys (id, serialNumber,
    inverterSerialNumber) is in the table has power 0, is drawn black and
    does not count in the summary. *)
Theorem panel_without_reading (pm : PowerMonitor) (panel : Panel.t) :
  powerData pm !! Panel.id panel = None ->
  powerData pm !! property_key (Panel.serialNumber panel) = None ->
  powerData pm !! property_key (Panel.inverterSerialNumber panel) = None ->
  panelPower parseFloat_str pm panel = 0 /\
  panelColor parseFloat_str pm panel = Black /\
  (forall acc, summaryStep parseFloat_str pm acc panel = acc).
Proof.
  intros H1 H2 H3.
  assert (Hp : panelPower parseFloat_str pm panel = 0).
  { unfold panelPower, powerInfo. now rewrite H1, H2, H3. }
  split; [exact Hp|]. split.
  - unfold panelColor. rewrite Hp. unfold getColorForPower.
    now destruct (Qeq_bool (maxPower (monitor pm)) 0).
  - intros acc. unfold summaryStep. now rewrite Hp.
Qed.

Lemma frame_powerInfo (pd : gmap string Device.t) (l l' : list Panel.t) :
  frame <$> l' = frame <$> l -> powerInfo pd <$> l' = powerInfo pd <$> l.
Proof.
  revert l'. induction l as [|p l IH]; intros [|p' l'] H;
    try discriminate; [reflexivity|].
  rewrite !fmap_cons in H.
  assert (Hp : frame p' = frame p) by congruence.
  assert (Hl : frame <$> l' = frame <$> l) by congruence.
  rewrite !fmap_cons, (powerInfo_frame pd p' p Hp). f_equal. now apply IH.
Qed.

(** X19.  Moving panels does not change which reading each of them
    shows: panel by panel, the record joined to it is the same before and
    after [resolveOverlaps], and before and after a drag step. *)
Theorem moving_keeps_readings (pd : gmap string Device.t) :
  (forall ps : list Panel.t,
     powerInfo pd <$> resolveOverlaps ps = powerInfo pd <$> ps) /\
  (forall (rect : ClientRect) (e : MouseEvent) (m : Monitor),
     powerInfo pd <$> panels (handleMouseMove rect e m)
       = powerInfo pd <$> panels m).
Proof.
  split.
  - intros ps. apply frame_powerInfo, resolveOverlaps_frame.
  - intros rect e m. apply frame_powerInfo.
    destruct (handleMouseMove_cases rect e m)
      as [->|(d & dp & x & y & Hl & ->)]; [reflexivity|].
    rewrite list_fmap_insert. apply list_insert_id.
    now rewrite list_lookup_fmap, Hl.
Qed.

(** X20.  A panel exported and loaded again as local layout is joined to
    the same reading as before, provided the table has no entry under the
    empty string or under the key [undefined] (which is where a missing
    serialNumber looks). *)
Theorem export_reload_keeps_reading (pd : gmap string Device.t)
    (index : nat) (panel : Panel.t) :
  Truthy panel ->
  pd !! "undefined"%string = None -> pd !! ""%string = None ->
  powerInfo pd (Load.localPanel index (exportRecord panel))
    = powerInfo pd panel.
Proof.
  intros (Hid & _ & _) Hu He. unfold powerInfo, Load.localPanel, exportRecord.
  cbn [Panel.id Panel.serialNumber Panel.inverterSerialNumber
       Raw.id Raw.serialNumber Raw.inverterSerialNumber].
  assert (Eid : or_str_default (or_str (Some (Panel.id panel))
                  (Panel.inverterSerialNumber panel))
                  ("panel-" +:+ pretty index) = Panel.id panel).
  { unfold or_str. rewrite Hid. simpl in *.
    now destruct (String.eqb (Panel.id panel) ""). }
  rewrite Eid.
  destruct (pd !! Panel.id panel) as [d|]; [reflexivity|].
  unfold or_str.
  destruct (truthy_str (Panel.serialNumber panel)) eqn:Es; [reflexivity|].
  assert (Hsn : pd !! property_key (Panel.serialNumber panel) = None).
  { destruct (Panel.serialNumber panel) as [s|]; [|exact Hu].
    simpl in Es. apply negb_false_iff, String.eqb_eq in Es. now subst s. }
  rewrite Hsn.
  now destruct (pd !! property_key (Panel.inverterSerialNumber panel)).
Qed.

Lemma or_val_l (a b : option JsValue) :
  truthy_val a = true -> or_val a b = a.
Proof. unfold or_val. now intros ->. Qed.

Lemma or_val_r (a b : option JsValue) :
  truthy_val a = false -> or_val a b = b.
Proof. unfold or_val. now intros ->. Qed.

(** X21.  [getPowerValue]: a numeric [p_3phsum_kw] is the reading, times
    1000, whatever the other fields hold (a kilowatt value of 0
    included); [p_3phsum_kW] is used, times 1000, only when [p_3phsum_kw]
    gives nothing; a non-zero numeric [power] is taken as it is when
    neither kilowatt field gives a number; and when no field is usable the
    power is 0. *)
Theorem getPowerValue_precedence (device : Device.t) :
  (forall v, Device.p_3phsum_kw device = Some (JNum v) ->
     getPower device = v * 1000) /\
  (forall v, kilowatt_field parseFloat_str (Device.p_3phsum_kw device) = None ->
     Device.p_3phsum_kW device = Some (JNum v) ->
     getPower device = v * 1000) /\
  (forall v, kilowatt_field parseFloat_str (Device.p_3phsum_kw device) = None ->
     kilowatt_field parseFloat_str (Device.p_3phsum_kW device) = None ->
     Device.power device = Some (JNum v) -> ~ v == 0 ->
     getPower device = v) /\
  (kilowatt_field parseFloat_str (Device.p_3phsum_kw device) = None ->
   kilowatt_field parseFloat_str (Device.p_3phsum_kW device) = None ->
   truthy_val (Device.power device) = false ->
   truthy_val (Device.Power device) = false ->
   truthy_val (Device.powerWatts device) = false ->
   truthy_val (Device.PowerWatts device) = false ->
   truthy_val (Device.currentPower device) = false ->
   truthy_val (Device.CurrentPower device) = false ->
   truthy_val (Device.instantPower device) = false ->
   truthy_val (Device.InstantPower device) = false ->
   getPower device = 0).
Proof.
  unfold getPowerValue. split; [|split; [|split]].
  - intros v ->. reflexivity.
  - intros v -> ->. reflexivity.
  - intros v -> -> -> Hv.
    assert (Ht : truthy_val (Some (JNum v)) = true).
    { cbn. destruct (Qeq_bool v 0) eqn:E; [|reflexivity].
      apply Qeq_bool_eq in E. contradiction. }
    do 7 (rewrite (or_val_l (Some (JNum v))) by exact Ht).
    now rewrite Ht.
  - intros -> -> H1 H2 H3 H4 H5 H6 H7 H8.
    rewrite (or_val_r _ _ H1), (or_val_r _ _ H2), (or_val_r _ _ H3),
      (or_val_r _ _ H4), (or_val_r _ _ H5), (or_val_r _ _ H6),
      (or_val_r _ _ H7).
    destruct (Device.InstantPower device) as [v|]; [|reflexivity].
    now rewrite H8.
Qed.

End PowerProperties.

(** ** [init] under the listeners *)

Section SessionProperties.
Variable parseFloat_str : string -> option number.
Variable toLowerCase : string -> string.
Variable Math_cos : number -> number.
Variable Math_sin : number -> number.
Variable Math_PI : number.

Local Abbreviation load := (loadPowerData parseFloat_str toLowerCase).
Local Abbreviation mouseDown := (handleMouseDown Math_cos Math_sin Math_PI).
Local Abbreviation step :=
  (dispatch parseFloat_str toLowerCase Math_cos Math_sin Math_PI).
Local Abbreviation Bound := (PowerBound parseFloat_str).

Lemma handleMouseDown_panels (panelId : option string)
    (globals : option (number * number)) (rect : ClientRect)
    (e : MouseEvent) (m : Monitor) :
  panels (mouseDown panelId globals rect e m) = panels m /\
  maxPower (mouseDown panelId globals rect e m) = maxPower m.
Proof.
  unfold handleMouseDown.
  destruct (negb (editPlacementEnabled m)); [now split|].
  cbv zeta.
  repeat match goal with
         | |- context [match ?t with _ => _ end] => destruct t
         end; now split.
Qed.

(** With no panels there is nothing to press on. *)
Lemma handleMouseDown_no_panels (panelId : option string)
    (globals : option (number * number)) (rect : ClientRect)
    (e : MouseEvent) (m : Monitor) :
  panels m = [] -> mouseDown panelId globals rect e m = m.
Proof.
  intros H. unfold handleMouseDown. rewrite H.
  destruct (negb (editPlacementEnabled m)); [reflexivity|].
  now destruct panelId.
Qed.

Lemma handleMouseMove_panels_frame (rect : ClientRect) (e : MouseEvent)
    (m : Monitor) :
  frame <$> panels (handleMouseMove rect e m) = frame <$> panels m /\
  maxPower (handleMouseMove rect e m) = maxPower m.
Proof.
  split.
  - destruct (handleMouseMove_cases rect e m)
      as [->|(d & dp & x & y & Hl & ->)]; [reflexivity|].
    rewrite list_fmap_insert. apply list_insert_id.
    now rewrite list_lookup_fmap, Hl.
  - unfold handleMouseMove, handleMouseUp.
    destruct (isDragging m); cbn [andb];
      [destruct (negb (editPlacementEnabled m))|]; try reflexivity.
    destruct (dragPanel m) as [d|]; [|reflexivity].
    destruct (panels m !! d) as [dp|]; [|reflexivity].
    now destruct (Drag.loop dp d (Drag.candidate rect e m) 0 (panels m)).
Qed.

Lemma loadPowerData_monitor (resp : PowerResponse) (pm : PowerMonitor) :
  panels (monitor (load resp pm)) = panels (monitor pm) /\
  isDragging (monitor (load resp pm)) = isDragging (monitor pm) /\
  dragPanel (monitor (load resp pm)) = dragPanel (monitor pm).
Proof.
  unfold loadPowerData. destruct resp as [| |data]; try now repeat split.
  now destruct (processReadings parseFloat_str toLowerCase data).
Qed.

Lemma loadPowerData_Bound (resp : PowerResponse) (pm : PowerMonitor) :
  Bound pm -> Bound (load resp pm) /\ 0 < maxPower (monitor (load resp pm)).
Proof.
  intros [Hpos Hall].
  assert (Herr : forall pm',
            maxPower (monitor pm')
              = Load.defaultMaxPower (maxPower (monitor pm)) ->
            powerData pm' = powerData pm ->
            Bound pm' /\ 0 < maxPower (monitor pm')).
  { intros pm' Hm Hd.
    destruct (defaultMaxPower_pos _ Hpos) as [H1 H2].
    unfold PowerBound. rewrite Hm, Hd. repeat split; try lra.
    intros k d Hk. specialize (Hall k d Hk). lra. }
  destruct resp as [| |data]; [now apply Herr | now apply Herr |].
  pose proof (loadPowerData_maxPower_aux parseFloat_str toLowerCase data pm)
    as H.
  cbv zeta in H. destruct H as (H1 & H2 & _).
  split; [|exact H1]. split; [lra | exact H2].
Qed.

Lemma dispatch_frame (pm : PowerMonitor) (ev : Event) :
  frame <$> panels (monitor (step pm ev))
    = frame <$> panels (monitor pm).
Proof.
  destruct ev as [panelId globals rect e|rect e| |checked|resp];
    cbn [dispatch monitor panels].
  - now rewrite (proj1 (handleMouseDown_panels _ _ _ _ _)).
  - apply handleMouseMove_panels_frame.
  - now rewrite handleMouseUp_panels.
  - reflexivity.
  - now rewrite (proj1 (loadPowerData_monitor _ _)).
Qed.

Lemma dispatch_Bound (pm : PowerMonitor) (ev : Event) :
  Bound pm -> Bound (step pm ev).
Proof.
  intros H.
  destruct ev as [panelId globals rect e|rect e| |checked|resp];
    cbn [dispatch]; try exact H.
  - destruct H as [Hpos Hall]. unfold PowerBound. cbn [monitor powerData].
    now rewrite (proj2 (handleMouseDown_panels _ _ _ _ _)).
  - destruct H as [Hpos Hall]. unfold PowerBound. cbn [monitor powerData].
    now rewrite (proj2 (handleMouseMove_panels_frame _ _ _)).
  - destruct H as [Hpos Hall]. unfold PowerBound, handleMouseUp.
    cbn [monitor powerData]. now destruct (isDragging (monitor pm)).
  - now apply loadPowerData_Bound.
Qed.

(** Before the layout is assigned there is no panel to press on: no
    event starts a drag or creates a panel. *)
Lemma dispatch_no_panels (pm : PowerMonitor) (ev : Event) :
  panels (monitor pm) = [] /\ isDragging (monitor pm) = false /\
  dragPanel (monitor pm) = None ->
  panels (monitor (step pm ev)) = [] /\
  isDragging (monitor (step pm ev)) = false /\
  dragPanel (monitor (step pm ev)) = None.
Proof.
  intros (Hp & Hd & Hk).
  destruct ev as [panelId globals rect e|rect e| |checked|resp];
    cbn [dispatch monitor].
  - now rewrite handleMouseDown_no_panels.
  - unfold handleMouseMove. now rewrite Hd.
  - unfold handleMouseUp. now rewrite Hd.
  - now repeat split.
  - destruct (loadPowerData_monitor resp pm) as (-> & -> & ->).
    now repeat split.
Qed.

Lemma foldl_dispatch_frame (evs : list Event) (pm : PowerMonitor) :
  frame <$> panels (monitor (foldl step pm evs))
    = frame <$> panels (monitor pm).
Proof.
  revert pm. induction evs as [|ev evs IH]; intros pm; simpl; [reflexivity|].
  rewrite IH. apply dispatch_frame.
Qed.

Lemma foldl_dispatch_Bound (evs : list Event) (pm : PowerMonitor) :
  Bound pm -> Bound (foldl step pm evs).
Proof.
  revert pm. induction evs as [|ev evs IH]; intros pm H; simpl; [exact H|].
  apply IH. now apply dispatch_Bound.
Qed.

Lemma foldl_dispatch_no_panels (evs : list Event) (pm : PowerMonitor) :
  panels (monitor pm) = [] /\ isDragging (monitor pm) = false /\
  dragPanel (monitor pm) = None ->
  panels (monitor (foldl step pm evs)) = [] /\
  isDragging (monitor (foldl step pm evs)) = false /\
  dragPanel (monitor (foldl step pm evs)) = None.
Proof.
  revert pm. induction evs as [|ev evs IH]; intros pm H; simpl; [exact H|].
  apply IH. now apply dispatch_no_panels.
Qed.

(** X22.  After [init], whatever the two requests returned and whichever
    listeners ran while it waited (presses, moves, releases, the edit
    switch, a refresh), the events before the layout is assigned have
    found no panel and started no drag; there are panels to draw, which
    are those of the loaded layout with at most their positions changed,
    each with a non-empty id and a non-zero size; maxPower is positive
    and no panel has a power above it. *)
Theorem init_ready (before between : list Event)
    (localLayout : option (list Raw.t)) (layout : Response)
    (readings : PowerResponse) :
  let pm := init parseFloat_str toLowerCase Math_cos Math_sin Math_PI
                 before between localLayout layout readings in
  let pm0 := foldl step constructed before in
  (panels (monitor pm0) = [] /\ isDragging (monitor pm0) = false /\
   dragPanel (monitor pm0) = None) /\
  panels (monitor pm) <> [] /\
  frame <$> panels (monitor pm)
    = frame <$> panels (loadPanelLayout localLayout layout
                          (monitor constructed)) /\
  Forall Truthy (panels (monitor pm)) /\
  0 < maxPower (monitor pm) /\
  (forall panel : Panel.t,
     panelPower parseFloat_str pm panel <= maxPower (monitor pm)).
Proof.
  cbv zeta. unfold init.
  set (pm0 := foldl step constructed before).
  set (pm1 := mkPowerMonitor
                (loadPanelLayout localLayout layout (monitor pm0))
                (powerData pm0)).
  set (pm2 := foldl step pm1 between).
  assert (H0 : panels (monitor pm0) = [] /\ isDragging (monitor pm0) = false /\
               dragPanel (monitor pm0) = None).
  { apply foldl_dispatch_no_panels. now repeat split. }
  assert (Hf : frame <$> panels (monitor (load readings pm2))
               = frame <$> panels (loadPanelLayout localLayout layout
                                     (monitor constructed))).
  { rewrite (proj1 (loadPowerData_monitor readings pm2)).
    unfold pm2. rewrite foldl_dispatch_frame. reflexivity. }
  assert (Htr : Forall Truthy (panels (monitor (load readings pm2)))).
  { apply (Truthy_frame _ _ Hf), loadPanelLayout_Truthy. }
  assert (Hb0 : Bound pm0).
  { apply foldl_dispatch_Bound. split; [cbn; lra|].
    intros k d Hk. cbn in Hk. rewrite lookup_empty in Hk. discriminate. }
  assert (Hb1 : Bound pm1).
  { destruct Hb0 as [Hpos Hall]. unfold PowerBound, pm1.
    cbn [monitor powerData maxPower loadPanelLayout].
    destruct (defaultMaxPower_pos _ Hpos) as [H1 H2].
    split; [lra|]. intros k d Hk. specialize (Hall k d Hk). lra. }
  assert (Hb2 : Bound pm2) by now apply foldl_dispatch_Bound.
  destruct (loadPowerData_Bound readings pm2 Hb2) as [[_ Hall] Hpos].
  split; [exact H0|].
  split.
  { intros Hnil. rewrite Hnil in Hf. symmetry in Hf.
    apply fmap_nil_inv in Hf. apply (f_equal length) in Hf.
    unfold loadPanelLayout in Hf. cbn [panels] in Hf.
    rewrite resolveOverlaps_length in Hf.
    destruct (Load.tryBlock localLayout layout) as [ps|]; [|discriminate].
    destruct (length ps =? 0)%nat eqn:E; [discriminate|].
    apply Nat.eqb_neq in E. simpl in Hf. lia. }
  split; [exact Hf|]. split; [exact Htr|]. split; [exact Hpos|].
  intros panel. unfold panelPower.
  destruct (panelPower_cases parseFloat_str (load readings pm2) panel)
    as [->|(k & d & Hk & ->)]; [lra | now apply (Hall k d)].
Qed.
End SessionProperties.

(** ** Tooltip placement *)

(** Case analysis on every comparison, innermost first. *)
Ltac case_Qlt_bool :=
  repeat match goal with
         | |- context [Qlt_bool ?a ?b] =>
             lazymatch a with
             | context [Qlt_bool _ _] => fail
             | _ => idtac
             end;
             lazymatch b with
             | context [Qlt_bool _ _] => fail
             | _ => idtac
             end;
             let E := fresh "E" in
             destruct (Qlt_bool a b) eqn:E;
             [apply Qlt_bool_true in E | apply Qlt_bool_false in E]
         end.

Lemma Tooltip_initial_nonneg (cursor size viewport : number) :
  0 <= Tooltip.initial cursor size viewport.
Proof.
  unfold Tooltip.initial, Tooltip.offset.
  case_Qlt_bool; lra.
Qed.

Lemma Tooltip_adjusted_fits (pos size viewport low high : number) :
  0 <= pos -> low == pos -> high == pos + size ->
  0 <= Tooltip.adjusted pos size viewport low high /\
  (size <= viewport - 2 * Tooltip.offset ->
   Tooltip.adjusted pos size viewport low high + size <= viewport) /\
  (viewport - 2 * Tooltip.offset < size ->
   Tooltip.adjusted pos size viewport low high
     = Math_max Tooltip.offset ((viewport - size) / 2)).
Proof.
  intros Hpos Hlow Hhigh. unfold Tooltip.adjusted, Tooltip.offset.
  pose proof (Math_max_l 10 ((viewport - size) / 2)) as Hmax.
  case_Qlt_bool; repeat split; intros; try reflexivity; lra.
Qed.

Lemma Tooltip_final_eq (x y w h vw vh : number) (finalRect : Tooltip.Box) :
  (Tooltip.showTooltip x y w h vw vh finalRect).1
    == Tooltip.adjusted (Tooltip.initial x w vw) w vw
         (Tooltip.left finalRect) (Tooltip.right finalRect) /\
  (Tooltip.showTooltip x y w h vw vh finalRect).2
    == Tooltip.adjusted (Tooltip.initial y h vh) h vh
         (Tooltip.top finalRect) (Tooltip.bottom finalRect).
Proof.
  unfold Tooltip.showTooltip.
  destruct (Qeq_bool (Tooltip.adjusted (Tooltip.initial x w vw) w vw _ _)
              (Tooltip.initial x w vw)) eqn:Ex;
  destruct (Qeq_bool (Tooltip.adjusted (Tooltip.initial y h vh) h vh _ _)
              (Tooltip.initial y h vh)) eqn:Ey;
    cbn [negb orb fst snd]; try (split; reflexivity).
  apply Qeq_bool_eq in Ex, Ey. split; symmetry; assumption.
Qed.

(** X23.  When the browser reports the tooltip where it was first placed,
    the final position is never left of or above the viewport; a tooltip
    that is at most the viewport less 20 wide (high) ends entirely inside
    the viewport on that axis; a larger one is centred, and never closer
    than 10 to the left (top) edge. *)
Theorem showTooltip_on_screen (x y tooltipWidth tooltipHeight viewportWidth
    viewportHeight : number) (finalRect : Tooltip.Box) :
  Tooltip.left finalRect
    == Tooltip.initial x tooltipWidth viewportWidth ->
  Tooltip.right finalRect
    == Tooltip.initial x tooltipWidth viewportWidth + tooltipWidth ->
  Tooltip.top finalRect
    == Tooltip.initial y tooltipHeight viewportHeight ->
  Tooltip.bottom finalRect
    == Tooltip.initial y tooltipHeight viewportHeight + tooltipHeight ->
  let pos := Tooltip.showTooltip x y tooltipWidth tooltipHeight
               viewportWidth viewportHeight finalRect in
  0 <= pos.1 /\ 0 <= pos.2 /\
  (tooltipWidth <= viewportWidth - 20 -> pos.1 + tooltipWidth <= viewportWidth) /\
  (tooltipHeight <= viewportHeight - 20 ->
   pos.2 + tooltipHeight <= viewportHeight) /\
  (viewportWidth - 20 < tooltipWidth ->
   pos.1 == Math_max 10 ((viewportWidth - tooltipWidth) / 2)) /\
  (viewportHeight - 20 < tooltipHeight ->
   pos.2 == Math_max 10 ((viewportHeight - tooltipHeight) / 2)).
Proof.
  intros Hl Hr Ht Hb. cbv zeta.
  destruct (Tooltip_final_eq x y tooltipWidth tooltipHeight viewportWidth
              viewportHeight finalRect) as [Ex Ey].
  destruct (Tooltip_adjusted_fits
              (Tooltip.initial x tooltipWidth viewportWidth) tooltipWidth
              viewportWidth (Tooltip.left finalRect) (Tooltip.right finalRect)
              (Tooltip_initial_nonneg _ _ _) Hl Hr) as (X1 & X2 & X3).
  destruct (Tooltip_adjusted_fits
              (Tooltip.initial y tooltipHeight viewportHeight) tooltipHeight
              viewportHeight (Tooltip.top finalRect)
              (Tooltip.bottom finalRect)
              (Tooltip_initial_nonneg _ _ _) Ht Hb) as (Y1 & Y2 & Y3).
  unfold Tooltip.offset in *.
  repeat split; intros.
  - lra.
  - lra.
  - assert (H' : tooltipWidth <= viewportWidth - 2 * 10) by lra.
    specialize (X2 H'). lra.
  - assert (H' : tooltipHeight <= viewportHeight - 2 * 10) by lra.
    specialize (Y2 H'). lra.
  - assert (H' : viewportWidth - 2 * 10 < tooltipWidth) by lra.
    rewrite Ex, (X3 H'). reflexivity.
  - assert (H' : viewportHeight - 2 * 10 < tooltipHeight) by lra.
    rewrite Ey, (Y3 H'). reflexivity.
Qed.

(** X24.  For a tooltip that is at most the viewport less 20 in each
    direction: it is put 10 to the right of and below the cursor when it
    fits there, and otherwise 10 to the left of (above) the cursor when
    that fits. *)
Theorem showTooltip_placement (x y tooltipWidth tooltipHeight viewportWidth
    viewportHeight : number) (finalRect : Tooltip.Box) :
  Tooltip.left finalRect
    == Tooltip.initial x tooltipWidth viewportWidth ->
  Tooltip.right finalRect
    == Tooltip.initial x tooltipWidth viewportWidth + tooltipWidth ->
  Tooltip.top finalRect
    == Tooltip.initial y tooltipHeight viewportHeight ->
  Tooltip.bottom finalRect
    == Tooltip.initial y tooltipHeight viewportHeight + tooltipHeight ->
  tooltipWidth <= viewportWidth - 20 ->
  tooltipHeight <= viewportHeight - 20 ->
  let pos := Tooltip.showTooltip x y tooltipWidth tooltipHeight
               viewportWidth viewportHeight finalRect in
  (0 <= x + 10 -> x + 10 + tooltipWidth <= viewportWidth ->
   pos.1 == x + 10) /\
  (viewportWidth < x + 10 + tooltipWidth -> 0 <= x - tooltipWidth - 10 ->
   x <= viewportWidth -> pos.1 == x - tooltipWidth - 10) /\
  (0 <= y + 10 -> y + 10 + tooltipHeight <= viewportHeight ->
   pos.2 == y + 10) /\
  (viewportHeight < y + 10 + tooltipHeight -> 0 <= y - tooltipHeight - 10 ->
   y <= viewportHeight -> pos.2 == y - tooltipHeight - 10).
Proof.
  intros Hl Hr Ht Hb Hw Hh. cbv zeta.
  destruct (Tooltip_final_eq x y tooltipWidth tooltipHeight viewportWidth
              viewportHeight finalRect) as [Ex Ey].
  rewrite Ex, Ey. clear Ex Ey.
  assert (Haxis : forall cursor size viewport low high : number,
            low == Tooltip.initial cursor size viewport ->
            high == Tooltip.initial cursor size viewport + size ->
            size <= viewport - 20 ->
            (0 <= cursor + 10 -> cursor + 10 + size <= viewport ->
             Tooltip.adjusted (Tooltip.initial cursor size viewport) size
               viewport low high == cursor + 10) /\
            (viewport < cursor + 10 + size -> 0 <= cursor - size - 10 ->
             cursor <= viewport ->
             Tooltip.adjusted (Tooltip.initial cursor size viewport) size
               viewport low high == cursor - size - 10)).
  { intros cursor size viewport low high Hlow Hhigh Hsize.
    revert Hlow Hhigh.
    unfold Tooltip.adjusted, Tooltip.initial, Tooltip.offset.
    cbv zeta. case_Qlt_bool; intros; split; intros; lra. }
  destruct (Haxis x tooltipWidth viewportWidth _ _ Hl Hr Hw) as [A1 A2].
  destruct (Haxis y tooltipHeight viewportHeight _ _ Ht Hb Hh) as [B1 B2].
  repeat split; assumption.
Qed.

(** ** Canvas size *)

Section CanvasProperties.
Variable Math_cos : number -> number.
Variable Math_sin : number -> number.
Variable Math_PI : number.

Local Abbreviation extent := (renderExtent Math_cos Math_sin Math_PI).
Local Abbreviation canvas := (canvasSize Math_cos Math_sin Math_PI).

Lemma extent_fold (l : list Panel.t) :
  forall acc : number * number,
    let r := foldl (fun (acc : number * number) (panel : Panel.t) =>
                      (Math_max acc.1 (extent panel).1,
                       Math_max acc.2 (extent panel).2)) acc l in
    acc.1 <= r.1 /\ acc.2 <= r.2 /\
    Forall (fun p => (extent p).1 <= r.1 /\ (extent p).2 <= r.2) l.
Proof.
  induction l as [|p l IH]; intros acc; cbn [foldl]; cbv zeta.
  - repeat split; try lra. constructor.
  - specialize (IH (Math_max acc.1 (extent p).1,
                    Math_max acc.2 (extent p).2)).
    cbv zeta in IH. cbn [fst snd] in IH. destruct IH as (H1 & H2 & Hall).
    pose proof (Math_max_l acc.1 (extent p).1).
    pose proof (Math_max_r acc.1 (extent p).1).
    pose proof (Math_max_l acc.2 (extent p).2).
    pose proof (Math_max_r acc.2 (extent p).2).
    split; [lra|]. split; [lra|]. constructor; [split; lra | exact Hall].
Qed.

Lemma extent_upright (p : Panel.t) :
  Panel.planeRotation p == 0 \/ Panel.planeRotation p == 180 ->
  extent p = (Panel.x p + Panel.width p, Panel.y p + Panel.height p).
Proof.
  intros [H|H]; unfold renderExtent; rewrite (Qeq_eq_bool _ _ H); cbn.
  - reflexivity.
  - now rewrite andb_false_r.
Qed.

Lemma canvasSize_nonempty (innerWidth innerHeight : number)
    (ps : list Panel.t) :
  ps <> [] ->
  canvas innerWidth innerHeight ps =
  (Math_max
     ((foldl (fun (acc : number * number) (panel : Panel.t) =>
                (Math_max acc.1 (extent panel).1,
                 Math_max acc.2 (extent panel).2)) (0, 0) ps).1 + 50)
     innerWidth,
   Math_max
     ((foldl (fun (acc : number * number) (panel : Panel.t) =>
                (Math_max acc.1 (extent panel).1,
                 Math_max acc.2 (extent panel).2)) (0, 0) ps).2 + 50)
     (innerHeight - 100)).
Proof.
  intros Hne. unfold canvasSize. destruct ps as [|p0 ps0]; [contradiction|].
  match goal with
  | |- context [foldl ?f ?a ?l] => now destruct (foldl f a l)
  end.
Qed.

(** X25.  The canvas that [render] sizes is at least as wide as the
    window and as high as the window less 100; without panels it is
    exactly that; with panels it extends at least 50 past the extent that
    [render] accounts for every panel, which for a rotation of 0 or 180 is
    the panel's right and bottom edge. *)
Theorem canvasSize_covers (innerWidth innerHeight : number)
    (ps : list Panel.t) :
  let size := canvas innerWidth innerHeight ps in
  innerWidth <= size.1 /\ innerHeight - 100 <= size.2 /\
  (ps = [] -> size = (innerWidth, innerHeight - 100)) /\
  (ps <> [] -> 50 <= size.1 /\ 50 <= size.2) /\
  Forall (fun p =>
            (extent p).1 + 50 <= size.1 /\ (extent p).2 + 50 <= size.2 /\
            (Panel.planeRotation p == 0 \/ Panel.planeRotation p == 180 ->
             Panel.x p + Panel.width p + 50 <= size.1 /\
             Panel.y p + Panel.height p + 50 <= size.2)) ps.
Proof.
  cbv zeta. destruct (decide (ps = [])) as [->|Hne].
  - cbn [canvasSize fst snd]. split; [lra|]. split; [lra|].
    split; [reflexivity|]. split; [intros H; contradiction | constructor].
  - rewrite (canvasSize_nonempty _ _ _ Hne).
    pose proof (extent_fold ps (0, 0)) as H. cbv zeta in H.
    match type of H with
    | context [foldl ?f ?a ?l] => destruct (foldl f a l) as [maxX maxY]
    end. cbn [fst snd] in *.
    destruct H as (H1 & H2 & Hall).
    pose proof (Math_max_l (maxX + 50) innerWidth).
    pose proof (Math_max_r (maxX + 50) innerWidth).
    pose proof (Math_max_l (maxY + 50) (innerHeight - 100)).
    pose proof (Math_max_r (maxY + 50) (innerHeight - 100)).
    split; [lra|]. split; [lra|]. split; [intros ->; contradiction|].
    split; [intros _; split; lra|].
    eapply Forall_impl; [exact Hall|]. cbn beta. intros p [Hx Hy].
    split; [lra|]. split; [lra|]. intros Hrot.
    rewrite (extent_upright p Hrot) in Hx, Hy. cbn [fst snd] in Hx, Hy.
    split; lra.
Qed.
End CanvasProperties.

(** ** The earlier drag handlers *)

Lemma Legacy_handleMouseMove_eq (rect : ClientRect) (e : MouseEvent)
    (m : Monitor) :
  editPlacementEnabled m = true \/ isDragging m = false ->
  Legacy.handleMouseMove rect e m = handleMouseMove rect e m.
Proof.
  intros [H|H]; unfold Legacy.handleMouseMove, handleMouseMove; rewrite H.
  - now rewrite andb_false_r.
  - reflexivity.
Qed.

Lemma hit_true (x y : number) (p : Panel.t) :
  Legacy.hit x y p = true <->
  Panel.x p <= x /\ x <= Panel.x p + Panel.width p /\
  Panel.y p <= y /\ y <= Panel.y p + Panel.height p.
Proof.
  unfold Legacy.hit. rewrite !andb_true_iff, !Qle_bool_iff. tauto.
Qed.

(** In an array without overlaps, a point strictly inside one panel lies
    in no other panel, edges included. *)
Lemma hit_unique (ps : list Panel.t) (k j : nat) (p q : Panel.t)
    (x y : number) :
  NoOverlap ps -> ps !! k = Some p -> ps !! j = Some q ->
  Panel.x p < x -> x < Panel.x p + Panel.width p ->
  Panel.y p < y -> y < Panel.y p + Panel.height p ->
  Legacy.hit x y q = true -> j = k.
Proof.
  intros Hno Hp Hq H1 H2 H3 H4 Hhit.
  destruct (decide (j = k)) as [->|Hne]; [reflexivity|exfalso].
  apply hit_true in Hhit.
  pose proof (Hno k j p q ltac:(congruence) Hp Hq) as Ho.
  apply panelsOverlap_false in Ho. simpl in Ho. lra.
Qed.

Lemma Legacy_handleMouseDown_grabs_aux (rect : ClientRect) (e : MouseEvent)
    (m : Monitor) :
  let x := clientX e - left rect in
  let y := clientY e - top rect in
  (Forall (fun p => Legacy.hit x y p = false) (panels m) ->
   Legacy.handleMouseDown rect e m = m) /\
  (forall (k : nat) (p : Panel.t),
     NoOverlap (panels m) -> panels m !! k = Some p ->
     Panel.x p < x -> x < Panel.x p + Panel.width p ->
     Panel.y p < y -> y < Panel.y p + Panel.height p ->
     Legacy.handleMouseDown rect e m =
     mkMonitor (panels m) (maxPower m) true (Some k)
               (x - Panel.x p, y - Panel.y p) (editPlacementEnabled m)).
Proof.
  cbv zeta. unfold Legacy.handleMouseDown. split.
  - intros Hall.
    destruct (list_find _ (panels m)) as [[i q]|] eqn:E; [|reflexivity].
    apply list_find_Some in E as (Hq & Hhit & _).
    rewrite (proj1 (Forall_lookup _ _) Hall i q Hq) in Hhit. discriminate.
  - intros k p Hno Hp H1 H2 H3 H4.
    destruct (list_find _ (panels m)) as [[i q]|] eqn:E.
    + apply list_find_Some in E as (Hq & Hhit & _).
      assert (i = k) by (eapply hit_unique; eassumption). subst i.
      rewrite Hp in Hq. injection Hq as <-. reflexivity.
    + apply list_find_None in E.
      pose proof (proj1 (Forall_lookup _ _) E k p Hp) as Hn.
      exfalso. apply Hn. apply hit_true. lra.
Qed.

(** X26.  In the earlier [handleMouseDown], a press outside every panel
    changes nothing; when no two panels overlap, a press strictly inside a
    panel starts the drag of that very panel, with the offset of the
    pointer from its top-left corner. *)
Theorem Legacy_handleMouseDown_grabs (rect : ClientRect) (e : MouseEvent)
    (m : Monitor) :
  let x := clientX e - left rect in
  let y := clientY e - top rect in
  (Forall (fun p => Legacy.hit x y p = false) (panels m) ->
   Legacy.handleMouseDown rect e m = m) /\
  (forall (k : nat) (p : Panel.t),
     NoOverlap (panels m) -> panels m !! k = Some p ->
     Panel.x p < x -> x < Panel.x p + Panel.width p ->
     Panel.y p < y -> y < Panel.y p + Panel.height p ->
     Legacy.handleMouseDown rect e m =
     mkMonitor (panels m) (maxPower m) true (Some k)
               (x - Panel.x p, y - Panel.y p) (editPlacementEnabled m)).
Proof. exact (Legacy_handleMouseDown_grabs_aux rect e m). Qed.




(** ** Instances *)

Lemma handleMouseMove_frame_witness :
  handleMouseMove Sample.canvas (mkMouseEvent 0 0) Sample.idle = Sample.idle.
Proof.
  destruct (handleMouseMove_frame Sample.canvas (mkMouseEvent 0 0)
              Sample.idle) as (_ & _ & _ & _ & _ & H & _).
  apply H. reflexivity.
Defined.

Lemma getPowerValue_precedence_witness :
  getPowerValue SampleReadings.parseDecimal SampleReadings.meter = 7000.
Proof.
  destruct (getPowerValue_precedence SampleReadings.parseDecimal
              SampleReadings.meter) as (_ & _ & H & _).
  apply H; try reflexivity. discriminate.
Defined.

Lemma loadPowerData_maxPower_witness :
  getPowerValue SampleReadings.parseDecimal SampleReadings.inverterA1
  <= maxPower (monitor (loadPowerData SampleReadings.parseDecimal
                          SampleReadings.lower
                          (PowerJson SampleReadings.payload) constructed)).
Proof.
  destruct (loadPowerData_maxPower SampleReadings.parseDecimal
              SampleReadings.lower SampleReadings.payload constructed)
    as (_ & H & _).
  apply (H "A1"%string). vm_compute. reflexivity.
Defined.

Lemma loadPowerData_stored_witness :
  powerData (loadPowerData SampleReadings.parseDecimal SampleReadings.lower
               (PowerJson SampleReadings.payload) constructed)
    !! "a1"%string = Some SampleReadings.inverterA1.
Proof.
  destruct (loadPowerData_stored SampleReadings.parseDecimal
              SampleReadings.lower SampleReadings.payload constructed)
    as (_ & _ & H).
  apply (H [SampleReadings.meter] [] SampleReadings.inverterA1
           "A1"%string "a1"%string).
  - reflexivity.
  - reflexivity.
  - reflexivity.
  - discriminate.
  - right. reflexivity.
  - intros d' s' Hd'. inversion Hd'.
Defined.

Lemma loadPowerData_frame_witness :
  powerData (loadPowerData SampleReadings.parseDecimal SampleReadings.lower
               PowerNetworkError SampleReadings.ready)
    = powerData SampleReadings.ready.
Proof.
  destruct (loadPowerData_frame SampleReadings.parseDecimal
              SampleReadings.lower PowerNetworkError SampleReadings.ready)
    as (_ & _ & _ & _ & _ & H).
  apply H. left. reflexivity.
Defined.


Lemma panel_without_reading_witness :
  panelColor SampleReadings.parseDecimal SampleReadings.ready
             (Sample.plain "zz" 0 0 80 120) = Black.
Proof.
  apply (panel_without_reading SampleReadings.parseDecimal
           SampleReadings.ready (Sample.plain "zz" 0 0 80 120));
    vm_compute; reflexivity.
Defined.

Lemma export_reload_keeps_reading_witness :
  powerInfo (powerData SampleReadings.ready)
            (Load.localPanel 0 (exportRecord (Sample.plain "A1" 0 0 80 120)))
  = powerInfo (powerData SampleReadings.ready) (Sample.plain "A1" 0 0 80 120).
Proof.
  apply (export_reload_keeps_reading (powerData SampleReadings.ready) 0
           (Sample.plain "A1" 0 0 80 120)).
  - repeat constructor.
  - vm_compute. reflexivity.
  - vm_compute. reflexivity.
Defined.

Lemma showTooltip_on_screen_witness :
  (Tooltip.showTooltip 900 100 200 50 1000 800
     (Tooltip.mkBox 690 890 110 160)).1 + 200 <= 1000.
Proof.
  refine (proj1 (proj2 (proj2 (showTooltip_on_screen 900 100 200 50 1000 800
                                 (Tooltip.mkBox 690 890 110 160) _ _ _ _)))
            _);
    vm_compute; (reflexivity || discriminate).
Defined.

Lemma showTooltip_placement_witness :
  (Tooltip.showTooltip 900 100 200 50 1000 800
     (Tooltip.mkBox 690 890 110 160)).1 == 900 - 200 - 10.
Proof.
  refine (proj1 (proj2 (showTooltip_placement 900 100 200 50 1000 800
                          (Tooltip.mkBox 690 890 110 160) _ _ _ _ _ _))
            _ _ _);
    vm_compute; (reflexivity || discriminate).
Defined.

Lemma canvasSize_covers_witness :
  canvasSize (fun _ => 0) (fun _ => 0) 0 1024 768 [] = (1024, 768 - 100).
Proof.
  destruct (canvasSize_covers (fun _ => 0) (fun _ => 0) 0 1024 768 [])
    as (_ & _ & H & _).
  apply H. reflexivity.
Defined.

Lemma Legacy_handleMouseDown_grabs_witness :
  Legacy.handleMouseDown Sample.canvas (mkMouseEvent 130 60)
    (mkMonitor Sample.row 400 false None (0, 0) false)
  = mkMonitor Sample.row 400 true (Some 1%nat)
      (130 - 0 - 90, 60 - 0 - 0) false.
Proof.
  destruct (Legacy_handleMouseDown_grabs Sample.canvas (mkMouseEvent 130 60)
              (mkMonitor Sample.row 400 false None (0, 0) false)) as [_ H].
  apply (H 1%nat (Sample.plain "p" 90 0 80 120)).
  - apply pairwise_clear_NoOverlap. vm_compute. reflexivity.
  - reflexivity.
  - reflexivity.
  - reflexivity.
  - reflexivity.
  - reflexivity.
Defined.

